(** * YouTube comment fetcher: a shallow embedding of [main.py]

    The development follows the source file top to bottom:
    - the regular expression used by [extract_video_id], with a small
      backtracking matcher giving [re.search] its leftmost, greedy meaning;
    - the surroundings of the tool (environment, clock, file system, the
      scripted answers of the network) and a state-and-exception monad in
      which [save_comments], [get_current_comment_count] and [_run] are
      written as the Python methods are;
    - the theorems about them. *)

From Stdlib Require Import Ascii String.
From stdpp Require Import gmap strings list pretty.

Open Scope string_scope.
Open Scope list_scope.

(* ===================================================================== *)
(** * Regular expressions, as much of [re] as the source uses            *)
(* ===================================================================== *)

Module Re.

(** The fragment of the pattern language: literal characters, character
    classes, [.], concatenation, ordered alternation, bounded repetition
    [r{n}], greedy [r*] and the capturing group number 1.  *)
Inductive regex : Type :=
| Chr (c : ascii)
| Cls (p : ascii → bool)
| Dot
| Cat (r1 r2 : regex)
| Alt (r1 r2 : regex)
| Rep (n : nat) (r : regex)
| Star (r : regex)
| Grp (r : regex).

(** What a successful match reports: the text of group 1, if the group
    took part in the match. *)
Definition capture : Type := option (list ascii).

Definition newline : ascii := ascii_of_nat 10.

(** A matcher takes the input, the current capture and a continuation for
    the rest of the input; [None] makes the caller try its next choice. *)
Definition cont : Type := list ascii → capture → option capture.
Definition matcher : Type := list ascii → capture → cont → option capture.

(** [r{n}]: [n] times [step]. *)
Fixpoint rep_loop (step : matcher) (n : nat) (s : list ascii) (g : capture)
    (k : cont) : option capture :=
  match n with
  | O => k s g
  | S n' => step s g (λ s' g', rep_loop step n' s' g' k)
  end.

(** Greedy [r*]: one more [step] is tried before the continuation. An
    iteration that consumes nothing is cut off, so [fuel] beyond the length
    of the input is never used. *)
Fixpoint star_loop (step : matcher) (fuel : nat) (s : list ascii) (g : capture)
    (k : cont) : option capture :=
  match fuel with
  | O => k s g
  | S fuel' =>
      match step s g (λ s' g', if (length s' <? length s)%nat
                               then star_loop step fuel' s' g' k else None) with
      | Some res => Some res
      | None => k s g
      end
  end.

(** Backtracking matcher in continuation-passing style: [rmatch r s g k]
    matches [r] at the head of [s]. Alternation is ordered, as in Python. *)
Fixpoint rmatch (r : regex) (s : list ascii) (g : capture) (k : cont)
    {struct r} : option capture :=
  match r with
  | Chr c =>
      match s with
      | a :: s' => if Ascii.eqb a c then k s' g else None
      | [] => None
      end
  | Cls p =>
      match s with
      | a :: s' => if p a then k s' g else None
      | [] => None
      end
  | Dot =>
      match s with
      | a :: s' => if Ascii.eqb a newline then None else k s' g
      | [] => None
      end
  | Cat r1 r2 => rmatch r1 s g (λ s' g', rmatch r2 s' g' k)
  | Alt r1 r2 =>
      match rmatch r1 s g k with
      | Some res => Some res
      | None => rmatch r2 s g k
      end
  | Rep n r1 => rep_loop (rmatch r1) n s g k
  | Star r1 => star_loop (rmatch r1) (S (length s)) s g k
  | Grp r1 =>
      rmatch r1 s g (λ s' _, k s' (Some (take (length s - length s') s)))
  end.

(** [re.match]: a match anchored at the start of the input. *)
Definition match_here (r : regex) (s : list ascii) : option capture :=
  rmatch r s None (λ _ g, Some g).

(** [re.search]: the first position, from the left, at which the pattern
    matches. *)
Fixpoint search (r : regex) (s : list ascii) : option capture :=
  match match_here r s with
  | Some g => Some g
  | None =>
      match s with
      | [] => None
      | _ :: s' => search r s'
      end
  end.

End Re.

(* ===================================================================== *)
(** * [extract_video_id]                                                 *)
(* ===================================================================== *)

(** The class [[0-9A-Za-z_-]]. *)
Definition id_char (c : ascii) : bool :=
  (("0" <=? c) && (c <=? "9"))%char
  || (("A" <=? c) && (c <=? "Z"))%char
  || (("a" <=? c) && (c <=? "z"))%char
  || (c =? "_")%char
  || (c =? "-")%char.

(** The pattern [(?:v=|\/)([0-9A-Za-z_-]{11}).*]. *)
Definition video_id_pattern : Re.regex :=
  Re.Cat (Re.Alt (Re.Cat (Re.Chr "v") (Re.Chr "=")) (Re.Chr "/"))
         (Re.Cat (Re.Grp (Re.Rep 11 (Re.Cls id_char)))
                 (Re.Star Re.Dot)).

(** [match.group(1) if match else None]. The [except] branch of the source
    guards against a non-string argument; the argument is a string here.
    A string is taken as its sequence of bytes: every character the pattern
    names is ASCII, and no byte of a longer character is one of them. *)
Definition extract_video_id (url : string) : option string :=
  match Re.search video_id_pattern (list_ascii_of_string url) with
  | Some g => string_of_list_ascii <$> g
  | None => None
  end.

(** The eleven identifier characters at the head of [s], if there are. *)
Definition id_at (s : list ascii) : option (list ascii) :=
  if (11 <=? length s)%nat && forallb id_char (take 11 s)
  then Some (take 11 s) else None.

(** [s] starts with [v=] or [/] immediately followed by eleven identifier
    characters: the place where the pattern can match. *)
Definition candidate (s : list ascii) : option (list ascii) :=
  match s with
  | a :: t =>
      if Ascii.eqb a "v" then
        match t with
        | b :: t' => if Ascii.eqb b "=" then id_at t' else None
        | [] => None
        end
      else if Ascii.eqb a "/" then id_at t
      else None
  | [] => None
  end.

(* ===================================================================== *)
(** * Data model                                                          *)
(* ===================================================================== *)

(** The innermost [snippet] object of one entry of an API page
    ([item["snippet"]["topLevelComment"]["snippet"]]). *)
Record snippet : Type := Snippet {
  authorDisplayName : string;
  textDisplay : string;
  publishedAt : string
}.

(** The dict the tool keeps per comment. *)
Record comment : Type := Comment {
  author : string;
  text : string;
  published_at : string
}.

(** What one [requests.get] meets. [ConnectionError]: the call itself
    raises; [HTTPError]: a response that [raise_for_status] rejects;
    [BadBody]: a body in which a key the loop reads is missing;
    [Page]: a well-formed page with its optional [nextPageToken]. *)
Inductive response : Type :=
| ConnectionError (msg : string)
| HTTPError (msg : string)
| BadBody (key : string)
| Page (items : list snippet) (nextPageToken : option string).

(** What is handed to a file: a string to [write], a row to
    [csv.writer.writerow], an object to [json.dump]. *)
Inductive cell : Type := CInt (n : nat) | CStr (s : string).

Inductive item : Type :=
| Text (s : string)
| Row (cells : list cell)
| Json (comments : list comment).

(** A path names a regular file, writable or not, or a directory. *)
Inductive node : Type :=
| File (writable : bool) (data : string)
| Dir.

Inductive level : Type := INFO | ERROR.

Inductive exn : Type :=
| RequestException (msg : string)
| NameError (msg : string)
| KeyError (key : string)
| OSError (msg : string)
| UnicodeEncodeError (msg : string)
| EOFError (msg : string).

(** [str(e)], as the f-strings of the log messages print it. *)
Definition exn_str (e : exn) : string :=
  match e with
  | RequestException m => m
  | NameError m => m
  | KeyError k => "'" +:+ k +:+ "'"
  | OSError m => m
  | UnicodeEncodeError m => m
  | EOFError m => m
  end.

(** What a run does to the outside, in order. [Flush] marks a call of
    [save_comments] with its batch and start index. *)
Inductive event : Type :=
| Log (lvl : level) (msg : string)
| Get (videoId : string) (pageToken : option string) (key : string)
| Flush (batch : list comment) (start_index : nat)
| Write (path : string) (it : item).

(** The surroundings of the tool. [today] is what
    [datetime.now().strftime("%Y%m%d")] gives; it stays the same during a
    run. [csv_text] and [json_text] are the texts the [csv] and [json]
    libraries produce for a row and for a dumped object. [can_create] tells
    whether [open(path, "a")] can create a missing [path] (its directory is
    there and may be written; the tool makes no directory). [write_error]
    tells which writes fail, whether because the text cannot be encoded or
    because the device refuses: for a path and an item it gives the
    exception raised and what of the item had reached the file before
    ([json.dump] writes in pieces), or [None] when the write goes through. *)
Record world : Type := World {
  environ : gmap string string;
  today : string;
  fs : gmap string node;
  csv_text : list cell → string;
  json_text : list comment → string;
  can_create : string → bool;
  write_error : string → item → option (string * exn);
  trace : list event
}.

Definition set_fs (f : gmap string node → gmap string node) (w : world) : world :=
  World (environ w) (today w) (f (fs w)) (csv_text w) (json_text w)
    (can_create w) (write_error w) (trace w).

Definition set_trace (f : list event → list event) (w : world) : world :=
  World (environ w) (today w) (fs w) (csv_text w) (json_text w)
    (can_create w) (write_error w) (f (trace w)).

(* ===================================================================== *)
(** * Exceptions and the monad of the methods                            *)
(* ===================================================================== *)

Inductive result (A : Type) : Type :=
| Ok (a : A)
| Raise (e : exn).
Arguments Ok {A} a.
Arguments Raise {A} e.

Definition M (A : Type) : Type := world → result A * world.

#[global] Instance M_ret : MRet M := λ A a w, (Ok a, w).

#[global] Instance M_bind : MBind M := λ A B f m w,
  match m w with
  | (Ok a, w') => f a w'
  | (Raise e, w') => (Raise e, w')
  end.

Definition raise {A : Type} (e : exn) : M A := λ w, (Raise e, w).

(** [try: body except ... as e: handler e]. *)
Definition try_except {A : Type} (body : M A) (handler : exn → M A) : M A := λ w,
  match body w with
  | (Ok a, w') => (Ok a, w')
  | (Raise e, w') => handler e w'
  end.

(** [for x in l: f x]. *)
Fixpoint for_each {A : Type} (l : list A) (f : A → M unit) : M unit :=
  match l with
  | [] => mret tt
  | x :: l' => f x ;; for_each l' f
  end.

(** [enumerate(l, start=start)]. *)
Definition enumerate {A : Type} (l : list A) (start : nat) : list (nat * A) :=
  zip (seq start (length l)) l.

(** Truth value of an optional string: [None] and the empty string are
    false. *)
Definition truthy (o : option string) : bool :=
  match o with
  | Some s => negb (s =? EmptyString)
  | None => false
  end.

(** ** Primitive operations *)

Definition emit (e : event) : M unit := λ w, (Ok tt, set_trace (λ t, t ++ [e]) w).

Definition logging_error (msg : string) : M unit := emit (Log ERROR msg).
Definition logging_info (msg : string) : M unit := emit (Log INFO msg).

Definition os_getenv (name : string) : M (option string) := λ w,
  (Ok (environ w !! name), w).

Definition now_strftime : M string := λ w, (Ok (today w), w).

(** [open(path, "a")]: creates the file when it is missing and can be
    created, fails on a directory and on a file that may not be written. *)
Definition open_append (path : string) : M unit := λ w,
  match fs w !! path with
  | None =>
      if can_create w path
      then (Ok tt, set_fs (insert path (File true EmptyString)) w)
      else (Raise (OSError ("[Errno 2] No such file or directory: '" +:+ path +:+ "'")), w)
  | Some (File true _) => (Ok tt, w)
  | Some (File false _) =>
      (Raise (OSError ("[Errno 13] Permission denied: '" +:+ path +:+ "'")), w)
  | Some Dir =>
      (Raise (OSError ("[Errno 21] Is a directory: '" +:+ path +:+ "'")), w)
  end.

Definition render (w : world) (it : item) : string :=
  match it with
  | Text s => s
  | Row cells => csv_text w cells
  | Json cs => json_text w cs
  end.

(** Appending to a file opened for append: [f.write], [writer.writerow]
    and [json.dump]. A write that fails leaves in the file what had reached
    it and raises. *)
Definition write (path : string) (it : item) : M unit := λ w,
  match fs w !! path with
  | Some (File true d) =>
      match write_error w path it with
      | None =>
          (Ok tt, set_trace (λ t, t ++ [Write path it])
                    (set_fs (insert path (File true (d +:+ render w it))) w))
      | Some (partial, e) =>
          (Raise e, set_fs (insert path (File true (d +:+ partial))) w)
      end
  | _ => (Raise (OSError ("[Errno 9] Bad file descriptor: '" +:+ path +:+ "'")), w)
  end.

Definition os_path_exists (path : string) : M bool := λ w,
  (Ok (bool_decide (is_Some (fs w !! path))), w).

Definition LF : ascii := ascii_of_nat 10.
Definition CR : ascii := ascii_of_nat 13.

(** Lines of a text read with universal newlines: a line ends at LF, CR or
    CR LF, and a last line without terminator counts when it is not empty. *)
Fixpoint splitlines (cur : list ascii) (s : list ascii) : list (list ascii) :=
  match s with
  | [] => match cur with [] => [] | _ => [cur] end
  | c :: s' =>
      if Ascii.eqb c LF then (cur ++ [LF]) :: splitlines [] s'
      else if Ascii.eqb c CR then
        match s' with
        | c' :: s'' =>
            if Ascii.eqb c' LF then (cur ++ [LF]) :: splitlines [] s''
            else (cur ++ [LF]) :: splitlines [] s'
        | [] => (cur ++ [LF]) :: splitlines [] s'
        end
      else splitlines (cur ++ [c]) s'
  end.

(** [open(path, "r")] followed by [readlines()]. *)
Definition readlines (path : string) : M (list string) := λ w,
  match fs w !! path with
  | Some (File _ d) =>
      (Ok (string_of_list_ascii <$> splitlines [] (list_ascii_of_string d)), w)
  | Some Dir =>
      (Raise (OSError ("[Errno 21] Is a directory: '" +:+ path +:+ "'")), w)
  | None =>
      (Raise (OSError ("[Errno 2] No such file or directory: '" +:+ path +:+ "'")), w)
  end.

(** The names bound at module level in [main.py]: the imports, the class
    and the two functions (with the text [str] gives for each, which is
    indicative only). A name that a function body reads without binding it
    is looked up here; the dunder names of the module and the builtins,
    searched as well, have neither a [video_id] nor a [date_str]. *)
Definition module_globals : gmap string string :=
  list_to_map [
    ("os", "<module 'os'>"); ("requests", "<module 'requests'>");
    ("logging", "<module 'logging'>"); ("load_dotenv", "<function load_dotenv>");
    ("re", "<module 're'>"); ("csv", "<module 'csv'>"); ("json", "<module 'json'>");
    ("datetime", "<class 'datetime.datetime'>");
    ("YouTubeCommentsTool", "<class '__main__.YouTubeCommentsTool'>");
    ("extract_video_id", "<function extract_video_id>");
    ("run", "<function run>")
  ].

Definition load_global (x : string) : M string := λ w,
  match module_globals !! x with
  | Some v => (Ok v, w)
  | None => (Raise (NameError ("name '" +:+ x +:+ "' is not defined")), w)
  end.

(* ===================================================================== *)
(** * [YouTubeCommentsTool]                                              *)
(* ===================================================================== *)

Definition md_line (i : nat) (c : comment) : string :=
  pretty i +:+ ". **" +:+ author c +:+ "**: " +:+ text c
  +:+ " (Published at: " +:+ published_at c +:+ ")" +:+ String LF EmptyString.

Definition csv_header : list cell :=
  [CStr "Index"; CStr "Author"; CStr "Comment"; CStr "Published At"].

Definition csv_row (i : nat) (c : comment) : list cell :=
  [CInt i; CStr (author c); CStr (text c); CStr (published_at c)].

(** The [try] block of [save_comments]. *)
Definition save_comments_body (comments : list comment) (start_index : nat)
    (video_id : string) : M nat :=
  date_str ← now_strftime;
  let markdown_file := "comments_" +:+ video_id +:+ "_" +:+ date_str +:+ ".md" in
  let csv_file := "comments_" +:+ video_id +:+ "_" +:+ date_str +:+ ".csv" in
  let json_file := "comments_" +:+ video_id +:+ "_" +:+ date_str +:+ ".json" in
  open_append markdown_file ;;
  for_each (enumerate comments (start_index + 1))
    (λ ic, write markdown_file (Text (md_line ic.1 ic.2))) ;;
  open_append csv_file ;;
  (if (start_index =? 0)%nat then write csv_file (Row csv_header) else mret tt) ;;
  for_each (enumerate comments (start_index + 1))
    (λ ic, write csv_file (Row (csv_row ic.1 ic.2))) ;;
  open_append json_file ;;
  write json_file (Json comments) ;;
  mret (start_index + length comments).

(** [save_comments]: the [try] block, and the [except] clause that logs
    and returns the start index. The call is first marked in the trace. *)
Definition save_comments (comments : list comment) (start_index : nat)
    (video_id : string) : M nat :=
  emit (Flush comments start_index) ;;
  try_except (save_comments_body comments start_index video_id)
    (λ e, logging_error ("Comments could not be saved: " +:+ exn_str e) ;;
          mret start_index).

(** The method reads [video_id] and [date_str], which it neither takes as
    a parameter nor assigns: both are looked up as module globals. *)
Definition get_current_comment_count : M nat :=
  try_except
    (video_id ← load_global "video_id";
     date_str ← load_global "date_str";
     let markdown_file := "comments_" +:+ video_id +:+ "_" +:+ date_str +:+ ".md" in
     ex ← os_path_exists markdown_file;
     if ex : bool then
       lines ← readlines markdown_file;
       mret (length lines)
     else mret 0)
    (λ e, logging_error ("Current comment count could not be retrieved: "
                         +:+ exn_str e) ;;
          mret 0).

Definition to_comment (sn : snippet) : comment :=
  Comment (authorDisplayName sn) (textDisplay sn) (publishedAt sn).

(** [requests.get] followed by [raise_for_status] and [json], on the
    response [r] that the request meets. *)
Definition fetch (r : response) (video_id : string)
    (next_page_token : option string) (api_key : string)
    : M (list snippet * option string) :=
  emit (Get video_id next_page_token api_key) ;;
  match r with
  | ConnectionError m => raise (RequestException m)
  | HTTPError m => raise (RequestException m)
  | BadBody k => raise (KeyError k)
  | Page items tok => mret (items, tok)
  end.

(** One pass through the body of the [while True] loop of [_run], up to
    the test of the token: the request, the records appended to [comments],
    the flush when the batch has reached 100. It gives the new values of
    [comments] and [total_comments] and the token of the page. *)
Definition iteration (r : response) (video_id api_key : string)
    (comments : list comment) (next_page_token : option string)
    (total_comments : nat) : M (list comment * nat * option string) :=
  data ← fetch r video_id next_page_token api_key;
  let comments := comments ++ (to_comment <$> data.1) in
  st ← (if (100 <=? length comments)%nat
        then t ← save_comments comments total_comments video_id; mret ([], t)
        else mret (comments, total_comments));
  mret (st, data.2).

(** The loop. [net] is the list of responses the successive requests meet;
    every iteration uses one, and a network with nothing left to answer
    refuses the connection. The result is the value of [comments] and of
    [total_comments] at the [break]. *)
Fixpoint fetch_loop (net : list response) (video_id api_key : string)
    (comments : list comment) (next_page_token : option string)
    (total_comments : nat) {struct net} : M (list comment * nat) :=
  match net with
  | [] => fetch (ConnectionError "Connection refused")
            video_id next_page_token api_key ;;
          mret (comments, total_comments)
  | r :: net' =>
      it ← iteration r video_id api_key comments next_page_token total_comments;
      if truthy it.2
      then fetch_loop net' video_id api_key it.1.1 it.2 it.1.2
      else mret it.1
  end.

(** [_run], on the network [net]. Both [except] clauses log and return the
    empty list. *)
Definition _run (net : list response) (video_id : string) : M (list comment) :=
  try_except
    (api_key ← os_getenv "YOUTUBE_API_KEY";
     if truthy api_key then
       let key := default EmptyString api_key in
       logging_info ("Using API Key: " +:+ key) ;;
       total_comments ← get_current_comment_count;
       st ← fetch_loop net video_id key [] None total_comments;
       save_comments st.1 st.2 video_id ;;
       logging_info ("Total " +:+ pretty st.2 +:+ " comments fetched.") ;;
       mret st.1
     else
       logging_error "YOUTUBE_API_KEY environment variable not set." ;;
       mret [])
    (λ e, match e with
          | RequestException m =>
              logging_error ("An HTTP error occurred: " +:+ m) ;; mret []
          | _ =>
              logging_error ("An unexpected error occurred: " +:+ exn_str e) ;;
              mret []
          end).


(* ===================================================================== *)
(** * Observations on a run                                              *)
(* ===================================================================== *)

#[global] Instance cell_eq_dec : EqDecision cell.
Proof. solve_decision. Defined.

#[global] Instance comment_eq_dec : EqDecision comment.
Proof. solve_decision. Defined.

#[global] Instance item_eq_dec : EqDecision item.
Proof. solve_decision. Defined.

(** The calls of [save_comments] recorded in a trace, oldest first. *)
Definition flushes (t : list event) : list (list comment * nat) :=
  omap (λ e, match e with Flush b s => Some (b, s) | _ => None end) t.

(** The requests recorded in a trace, by their page token. *)
Definition gets (t : list event) : list (option string) :=
  omap (λ e, match e with Get _ tok _ => Some tok | _ => None end) t.

(** What was written to [path], in order. *)
Definition writes_to (path : string) (t : list event) : list item :=
  omap (λ e, match e with
             | Write p it => if String.eqb p path then Some it else None
             | _ => None
             end) t.

(** The three output files of a video on a day. *)
Definition markdown_path (video_id date_str : string) : string :=
  "comments_" +:+ video_id +:+ "_" +:+ date_str +:+ ".md".
Definition csv_path (video_id date_str : string) : string :=
  "comments_" +:+ video_id +:+ "_" +:+ date_str +:+ ".csv".
Definition json_path (video_id date_str : string) : string :=
  "comments_" +:+ video_id +:+ "_" +:+ date_str +:+ ".json".

(** [open(path, "a")] succeeds: the path is free and can be created, or
    it is a writable file. *)
Definition appendable (w : world) (path : string) : bool :=
  match fs w !! path with
  | None => can_create w path
  | Some (File true _) => true
  | Some (File false _) | Some Dir => false
  end.

Definition outputs_appendable (w : world) (video_id : string) : bool :=
  appendable w (markdown_path video_id (today w))
  && appendable w (csv_path video_id (today w))
  && appendable w (json_path video_id (today w)).

(** What a run leaves alone. *)
Definition same_setting (w w' : world) : Prop :=
  environ w' = environ w ∧ today w' = today w
  ∧ csv_text w' = csv_text w ∧ json_text w' = json_text w
  ∧ can_create w' = can_create w ∧ write_error w' = write_error w.

(** A page followed by more pages, and a page that ends the pagination. *)
Definition has_next (r : response) : bool :=
  match r with Page _ tok => truthy tok | _ => false end.

Definition is_final (r : response) : bool :=
  match r with Page _ tok => negb (truthy tok) | _ => false end.

Definition page_items (r : response) : list snippet :=
  match r with Page items _ => items | _ => [] end.

Definition total_items (net : list response) : nat :=
  length (concat (page_items <$> net)).

(** Pure views of the loop over the pages [ps], entered with the batch
    [comments]: the batch left at the [break], and the batches flushed
    inside the loop. *)
Fixpoint pending (ps : list (list snippet)) (comments : list comment)
    : list comment :=
  match ps with
  | [] => comments
  | p :: ps' =>
      let c := comments ++ (to_comment <$> p) in
      pending ps' (if (100 <=? length c)%nat then [] else c)
  end.

Fixpoint loop_batches (ps : list (list snippet)) (comments : list comment)
    : list (list comment) :=
  match ps with
  | [] => []
  | p :: ps' =>
      let c := comments ++ (to_comment <$> p) in
      if (100 <=? length c)%nat then c :: loop_batches ps' []
      else loop_batches ps' c
  end.

(** The iterations over a prefix of the network, without the test of the
    token: the state in which the loop meets the next response. *)
Fixpoint iterations (net : list response) (video_id api_key : string)
    (comments : list comment) (next_page_token : option string)
    (total_comments : nat) : M (list comment * nat * option string) :=
  match net with
  | [] => mret (comments, total_comments, next_page_token)
  | r :: net' =>
      it ← iteration r video_id api_key comments next_page_token total_comments;
      iterations net' video_id api_key it.1.1 it.2 it.1.2
  end.

(** [ceil(n / 100)]. *)
Definition ceil_div100 (n : nat) : nat := (n + 99) / 100.

(* ===================================================================== *)
(** * Notions used in the statements                                    *)
(* ===================================================================== *)

(** A world reached from [w] by file operations on [path] only, which left
    the file writable and added the events [evs]. *)
Definition touched (path : string) (evs : list event) (w w' : world) : Prop :=
  trace w' = trace w ++ evs ∧ same_setting w w'
  ∧ (∃ d, fs w' !! path = Some (File true d))
  ∧ ∀ q, q ≠ path → fs w' !! q = fs w !! q.

(** The events of the [try] block of a flush that meets no failure. *)
Definition body_events (b : list comment) (s : nat) (vid date : string) : list event :=
  ((λ ic, Write (markdown_path vid date) (Text (md_line ic.1 ic.2))) <$> enumerate b (s + 1))
  ++ (if (s =? 0)%nat then [Write (csv_path vid date) (Row csv_header)] else [])
  ++ ((λ ic, Write (csv_path vid date) (Row (csv_row ic.1 ic.2))) <$> enumerate b (s + 1))
  ++ [Write (json_path vid date) (Json b)].

(** A world reached from [w] by work on the three output files of [vid]. *)
Definition saved (vid : string) (evs : list event) (w w' : world) : Prop :=
  trace w' = trace w ++ evs ∧ same_setting w w'
  ∧ outputs_appendable w' vid = true
  ∧ ∀ q, q ≠ markdown_path vid (today w) → q ≠ csv_path vid (today w) →
         q ≠ json_path vid (today w) → fs w' !! q = fs w !! q.

(** A computation that adds neither a request nor a flush to the trace and
    leaves the setting alone. *)
Definition inert {A : Type} (m : M A) : Prop :=
  ∀ w, ∃ evs, trace (m w).2 = trace w ++ evs
              ∧ flushes evs = [] ∧ gets evs = []
              ∧ same_setting w (m w).2.

(** What [get_current_comment_count] logs. *)
Definition count_error : string :=
  "Current comment count could not be retrieved: name 'video_id' is not defined".

(** The world after a request has been sent. *)
Definition requested (vid : string) (tk : option string) (key : string)
    (w : world) : world :=
  set_trace (λ t, t ++ [Get vid tk key]) w.

(** A response that is no page ends the iteration with an exception. *)
Definition failure_of (r : response) : option exn :=
  match r with
  | ConnectionError m => Some (RequestException m)
  | HTTPError m => Some (RequestException m)
  | BadBody k => Some (KeyError k)
  | Page _ _ => None
  end.

(** [os.getenv("YOUTUBE_API_KEY")]. *)
Definition api_key (w : world) : option string := environ w !! "YOUTUBE_API_KEY".

(** The world in which the loop starts: the key has been logged and the
    resume count has been asked for. *)
Definition started (w : world) : world :=
  set_trace (λ t, t ++ [Log ERROR count_error])
    (set_trace (λ t, t ++ [Log INFO ("Using API Key: " +:+ default EmptyString (api_key w))]) w).

(** What the two [except] clauses of [_run] log. *)
Definition abort_message (e : exn) : string :=
  match e with
  | RequestException m => "An HTTP error occurred: " +:+ m
  | _ => "An unexpected error occurred: " +:+ exn_str e
  end.

(** Every flush recorded in [evs] has a batch of at most 199 records. *)
Definition batch_sizes_ok (evs : list event) : Prop :=
  Forall (λ bs : list comment * nat, (length bs.1 ≤ 199)%nat) (flushes evs).

(** ** Worlds and pages for the concrete cases *)

(** A string stands for the UTF-8 bytes of its characters, a lone
    surrogate for the three bytes the same scheme gives it: ED, then a
    byte from A0 to BF, then one more. Such a string cannot be encoded. *)
Fixpoint encodable_bytes (l : list ascii) : bool :=
  match l with
  | a :: t =>
      match t with
      | b :: _ =>
          if Ascii.eqb a (ascii_of_nat 237)
             && (ascii_of_nat 160 <=? b)%char && (b <=? ascii_of_nat 191)%char
          then false else encodable_bytes t
      | [] => true
      end
  | [] => true
  end.

Definition encodable (s : string) : bool := encodable_bytes (list_ascii_of_string s).

(** The strings that writing an item has to encode. *)
Definition cell_strings (c : cell) : list string :=
  match c with CInt _ => [] | CStr s => [s] end.

Definition item_strings (it : item) : list string :=
  match it with
  | Text s => [s]
  | Row cells => cells ≫= cell_strings
  | Json cs => cs ≫= λ c, [author c; text c; published_at c]
  end.

(** A device that never fails, under files opened with [encoding="utf-8"]:
    a write fails exactly when a string cannot be encoded, before anything
    of the item reaches the file. (The message is abridged: Python also
    names the character and its position.) *)
Definition utf8_error (path : string) (it : item) : option (string * exn) :=
  if forallb encodable (item_strings it) then None
  else Some (EmptyString,
             UnicodeEncodeError "'utf-8' codec can't encode character: surrogates not allowed").

(** A working directory that may be written and has no sub-directory: a
    missing path can be created when it has no [/]. *)
Definition cwd_only (path : string) : bool :=
  negb (existsb (Ascii.eqb "/") (list_ascii_of_string path)).

(** A world on 1 January 2026 with the given environment and files, and an
    empty trace. *)
Definition world_of (env : gmap string string) (files : gmap string node) : world :=
  World env "20260101" files (λ _, "<row>") (λ _, "<json>") cwd_only utf8_error [].

(** A comment whose text holds a lone surrogate (U+DC80), as the API
    gives it and as the loop keeps it. *)
Definition surrogate_snippet : snippet :=
  Snippet "author"
    ("bad " +:+ String (ascii_of_nat 237) (String (ascii_of_nat 178)
                     (String (ascii_of_nat 128) EmptyString)))
    "2026-01-01T00:00:00Z".

Definition surrogate_comment : comment := to_comment surrogate_snippet.

Definition with_key : gmap string string := {["YOUTUBE_API_KEY" := "k"]}.

(** [n] comments, told apart by their text. *)
Definition snippets (n : nat) : list snippet :=
  (λ i, Snippet "author" (pretty i) "2026-01-01T00:00:00Z") <$> seq 0 n.

Definition comments_of (n : nat) : list comment := to_comment <$> snippets n.

(* ===================================================================== *)
(** * The entry point [run]                                              *)
(* ===================================================================== *)

Definition set_environ (f : gmap string string → gmap string string)
    (w : world) : world :=
  World (f (environ w)) (today w) (fs w) (csv_text w) (json_text w)
    (can_create w) (write_error w) (trace w).

(** [load_dotenv()], called with its defaults: the variables [dotenv] that
    the [.env] file holds (none when there is no such file) are added to
    the environment, and a variable that is already set keeps its value. *)
Definition load_dotenv (dotenv : gmap string string) (w : world) : world :=
  set_environ (λ env, env ∪ dotenv) w.

(** What goes to the terminal: the prompt of [input], a string given to
    [print], the list given to [print]. *)
Inductive output : Type :=
| Prompt (s : string)
| PrintStr (s : string)
| PrintList (l : list comment).

(** [run], with what [input] meets at the prompt: a line [typed], or the
    end of the input, at which [input] raises [EOFError]. [run] has no
    [try]: an exception goes out of it. It gives what was printed, whether
    an exception came out, and the world it leaves. The terminal is taken
    to accept what is printed. *)
Definition run (dotenv : gmap string string) (typed : option string)
    (net : list response) (w : world) : list output * result unit * world :=
  let w := load_dotenv dotenv w in
  match typed with
  | None =>
      ([Prompt "ðŸš€ Enter YouTube URL: "], Raise (EOFError "EOF when reading a line"), w)
  | Some video_url =>
      let video_id := extract_video_id video_url in
      if truthy video_id then
        match _run net (default EmptyString video_id) w with
        | (Ok result, w') =>
            ([Prompt "ðŸš€ Enter YouTube URL: "; PrintStr "Analysis Result:";
              PrintList result],
             Ok tt, w')
        | (Raise e, w') => ([Prompt "ðŸš€ Enter YouTube URL: "], Raise e, w')
        end
      else
        ([Prompt "ðŸš€ Enter YouTube URL: ";
          PrintStr "ðŸš¨ Invalid YouTube URL provided."],
         Ok tt, w)
  end.

(* ===================================================================== *)
(** * Further notions used in the statements                             *)
(* ===================================================================== *)

(** The requests recorded in a trace, with all they carry. *)
Definition requests (t : list event) : list (string * option string * string) :=
  omap (λ e, match e with Get v tok k => Some (v, tok, k) | _ => None end) t.

(** The continuation token of a page. *)
Definition page_token (r : response) : option string :=
  match r with Page _ tok => tok | _ => None end.

(** The text of the file at [path], empty when there is none. *)
Definition content (w : world) (path : string) : string :=
  match fs w !! path with
  | Some (File _ d) => d
  | _ => EmptyString
  end.

(** The text that a sequence of items makes in a file. *)
Definition text_of (w : world) (its : list item) : string :=
  foldr (λ it acc, render w it +:+ acc) EmptyString its.

(** The events of a sequence of flushes that meet no failure, the first
    from the start index [s], each from where the one before ended. *)
Fixpoint flush_events (bs : list (list comment)) (s : nat) (vid date : string)
    : list event :=
  match bs with
  | [] => []
  | b :: bs' =>
      (Flush b s :: body_events b s vid date)
      ++ flush_events bs' (s + length b) vid date
  end.

(** The world lets every item of [its] be written to [path]. *)
Definition accepts (w : world) (path : string) (its : list item) : bool :=
  forallb (λ it, match write_error w path it with None => true | Some _ => false end) its.

(** A computation that leaves every file outside [paths] as it is. *)
Definition confined {A : Type} (paths : list string) (m : M A) : Prop :=
  ∀ w q, q ∉ paths → fs (m w).2 !! q = fs w !! q.

(** The header row, when a flush from [s] writes it. *)
Definition header_items (s : nat) : list item :=
  if (s =? 0)%nat then [Row csv_header] else [].

(** The Markdown lines and the CSV rows of a batch numbered from [s + 1]. *)
Definition md_items (b : list comment) (s : nat) : list item :=
  (λ ic, Text (md_line ic.1 ic.2)) <$> enumerate b (s + 1).

Definition csv_items (b : list comment) (s : nat) : list item :=
  (λ ic, Row (csv_row ic.1 ic.2)) <$> enumerate b (s + 1).

(** The world lets a flush of [b] from [s] write all that it writes. *)
Definition flush_accepted (w : world) (vid : string) (b : list comment) (s : nat) : bool :=
  accepts w (markdown_path vid (today w)) (md_items b s)
  && accepts w (csv_path vid (today w)) (header_items s ++ csv_items b s)
  && accepts w (json_path vid (today w)) [Json b].

(** The same for a sequence of flushes, the first from [s], each from where
    the one before ended. *)
Fixpoint flushes_accepted (w : world) (vid : string) (bs : list (list comment))
    (s : nat) : bool :=
  match bs with
  | [] => true
  | b :: bs' => flush_accepted w vid b s && flushes_accepted w vid bs' (s + length b)
  end.

(** The exception of the first item of [its] that the world does not let
    be written to [path], if there is one. *)
Fixpoint refused (w : world) (path : string) (its : list item) : option exn :=
  match its with
  | [] => None
  | it :: its' =>
      match write_error w path it with
      | Some (_, e) => Some e
      | None => refused w path its'
      end
  end.

(** The same for all that a flush of [b] from [s] writes, in the order in
    which it writes. *)
Definition flush_error (w : world) (vid : string) (b : list comment) (s : nat)
    : option exn :=
  match refused w (markdown_path vid (today w)) (md_items b s) with
  | Some e => Some e
  | None =>
      match refused w (csv_path vid (today w)) (header_items s ++ csv_items b s) with
      | Some e => Some e
      | None => refused w (json_path vid (today w)) [Json b]
      end
  end.

(** How many of the items are the CSV header row. *)
Definition header_rows (its : list item) : nat :=
  length (filter (λ it, it = Row csv_header) its).

(* ===================================================================== *)
(** * Basic facts                                                        *)
(* ===================================================================== *)

Lemma append_inj_l (a x y : string) : a +:+ x = a +:+ y → x = y.
Proof. induction a as [|c a IH]; simpl; [done|]. intros [= H]. auto. Qed.

Lemma paths_distinct vid d :
  markdown_path vid d ≠ csv_path vid d
  ∧ markdown_path vid d ≠ json_path vid d
  ∧ csv_path vid d ≠ json_path vid d.
Proof.
  unfold markdown_path, csv_path, json_path.
  repeat split; intros H;
    repeat (apply append_inj_l in H); discriminate H.
Qed.

Lemma same_setting_refl w : same_setting w w.
Proof. by unfold same_setting. Qed.

Lemma same_setting_trans w1 w2 w3 :
  same_setting w1 w2 → same_setting w2 w3 → same_setting w1 w3.
Proof.
  unfold same_setting. intros (?&?&?&?&?&?) (?&?&?&?&?&?). repeat split; congruence.
Qed.

#[local] Hint Resolve same_setting_refl : core.

Lemma flushes_app t1 t2 : flushes (t1 ++ t2) = flushes t1 ++ flushes t2.
Proof. apply omap_app. Qed.

Lemma gets_app t1 t2 : gets (t1 ++ t2) = gets t1 ++ gets t2.
Proof. apply omap_app. Qed.

Lemma writes_to_app p t1 t2 : writes_to p (t1 ++ t2) = writes_to p t1 ++ writes_to p t2.
Proof. apply omap_app. Qed.

Lemma module_has_no_video_id : module_globals !! "video_id" = None.
Proof. vm_compute. reflexivity. Qed.

(* ===================================================================== *)
(** * The file operations                                                *)
(* ===================================================================== *)

Ltac unfold_monad :=
  unfold mbind, M_bind, mret, M_ret, try_except, raise,
    logging_error, logging_info, emit, now_strftime, os_getenv in *.

Lemma bind_ok {A B : Type} (m : M A) (f : A → M B) w a w' :
  m w = (Ok a, w') → (m ≫= f) w = f a w'.
Proof. unfold_monad. by intros ->. Qed.

Lemma bind_raise {A B : Type} (m : M A) (f : A → M B) w e w' :
  m w = (Raise e, w') → (m ≫= f) w = (Raise e, w').
Proof. unfold_monad. by intros ->. Qed.

Lemma touched_trans p evs1 evs2 w1 w2 w3 :
  touched p evs1 w1 w2 → touched p evs2 w2 w3 → touched p (evs1 ++ evs2) w1 w3.
Proof.
  intros (Ht1 & Hs1 & _ & Hq1) (Ht2 & Hs2 & Hd & Hq2).
  split; [by rewrite Ht2, Ht1, app_assoc|].
  split; [eapply same_setting_trans; eauto|].
  split; [done|].
  intros q Hq. rewrite Hq2, Hq1; done.
Qed.

Lemma touched_refl p w d : fs w !! p = Some (File true d) → touched p [] w w.
Proof. intros H. unfold touched. rewrite app_nil_r. eauto 10. Qed.

Lemma string_app_assoc (a b c : string) : (a +:+ b) +:+ c = a +:+ (b +:+ c).
Proof.
  induction a as [|x a IH]; [reflexivity|].
  change (String x ((a +:+ b) +:+ c) = String x (a +:+ (b +:+ c))). by rewrite IH.
Qed.

Lemma string_app_nil_r (a : string) : a +:+ EmptyString = a.
Proof.
  induction a as [|x a IH]; [reflexivity|].
  change (String x (a +:+ EmptyString) = String x a). by rewrite IH.
Qed.

Lemma render_same w w' it : same_setting w w' → render w' it = render w it.
Proof. intros (_ & _ & Hc & Hj & _). destruct it; simpl; congruence. Qed.

Lemma text_of_app w l1 l2 : text_of w (l1 ++ l2) = text_of w l1 +:+ text_of w l2.
Proof.
  induction l1 as [|it l1 IH]; simpl; [done|]. by rewrite IH, string_app_assoc.
Qed.

Lemma text_of_same w w' its : same_setting w w' → text_of w' its = text_of w its.
Proof.
  intros Hs. induction its as [|it its IH]; simpl; [done|].
  by rewrite IH, (render_same w w').
Qed.

Lemma accepts_same w w' p its : same_setting w w' → accepts w' p its = accepts w p its.
Proof. intros (_ & _ & _ & _ & _ & He). unfold accepts. by rewrite He. Qed.

Lemma accepts_app w p l1 l2 : accepts w p (l1 ++ l2) = accepts w p l1 && accepts w p l2.
Proof. apply forallb_app. Qed.

Lemma content_frame w w' q : fs w' !! q = fs w !! q → content w' q = content w q.
Proof. unfold content. by intros ->. Qed.

Lemma touched_content p evs w w' :
  touched p evs w w' → fs w' !! p = Some (File true (content w' p)).
Proof. intros (_ & _ & [d Hd] & _). unfold content. by rewrite Hd. Qed.

Lemma touched_content_other p q evs w w' :
  touched p evs w w' → q ≠ p → fs w' !! q = fs w !! q.
Proof. intros (_ & _ & _ & Hq) Hne. by apply Hq. Qed.

(** Appendability of one path is not changed by work on another. *)
Lemma touched_appendable p q evs w w' :
  touched p evs w w' → q ≠ p → appendable w' q = appendable w q.
Proof.
  intros (_ & (_ & _ & _ & _ & Hc & _) & _ & Hq) Hne. unfold appendable.
  by rewrite Hq, Hc.
Qed.

(** [open] for appending, when it succeeds and when it fails. *)
Lemma open_append_content p w :
  appendable w p = true →
  ∃ w', open_append p w = (Ok tt, w') ∧ touched p [] w w'
        ∧ fs w' !! p = Some (File true (content w p)).
Proof.
  unfold appendable, open_append, content. intros H.
  destruct (fs w !! p) as [[[|] d|]|] eqn:E; try discriminate.
  - exists w. split; [done|]. split; [by eapply touched_refl|done].
  - rewrite H. eexists. split; [reflexivity|]. split.
    + unfold touched. simpl. rewrite app_nil_r. split; [done|]. split; [done|].
      split; [exists EmptyString; by rewrite lookup_insert_eq|].
      intros q Hq. by rewrite lookup_insert_ne.
    + simpl. by rewrite lookup_insert_eq.
Qed.

Lemma open_append_fail p w :
  appendable w p = false → ∃ m, open_append p w = (Raise (OSError m), w).
Proof.
  unfold appendable, open_append. intros H.
  destruct (fs w !! p) as [[[|] d|]|]; try discriminate; eauto.
  rewrite H. eauto.
Qed.

(** A write that goes through, and one that does not. *)
Lemma write_content p it w d :
  fs w !! p = Some (File true d) → write_error w p it = None →
  ∃ w', write p it w = (Ok tt, w') ∧ touched p [Write p it] w w'
        ∧ fs w' !! p = Some (File true (d +:+ render w it)).
Proof.
  intros H He. unfold write. rewrite H, He. eexists. split; [reflexivity|]. split.
  - unfold touched. simpl. split; [done|]. split; [done|].
    split; [eexists; by rewrite lookup_insert_eq|].
    intros q Hq. by rewrite lookup_insert_ne.
  - simpl. by rewrite lookup_insert_eq.
Qed.

Lemma write_refused p it w d partial e :
  fs w !! p = Some (File true d) → write_error w p it = Some (partial, e) →
  write p it w = (Raise e, set_fs (insert p (File true (d +:+ partial))) w).
Proof. intros H He. unfold write. by rewrite H, He. Qed.

Lemma for_each_write_content {A : Type} p (f : A → item) (l : list A) w d :
  fs w !! p = Some (File true d) → accepts w p (f <$> l) = true →
  ∃ w', for_each l (λ x, write p (f x)) w = (Ok tt, w')
        ∧ touched p ((λ x, Write p (f x)) <$> l) w w'
        ∧ fs w' !! p = Some (File true (d +:+ text_of w (f <$> l))).
Proof.
  revert w d. induction l as [|x l IH]; intros w d H Ha.
  - exists w. split; [reflexivity|]. split; [by eapply touched_refl|].
    simpl. by rewrite string_app_nil_r.
  - rewrite fmap_cons in Ha. cbn [accepts forallb] in Ha.
    apply andb_prop in Ha as [Hx Ha].
    destruct (write_error w p (f x)) eqn:He; [discriminate|].
    destruct (write_content p (f x) w d H He) as (w1 & E1 & T1 & C1).
    assert (Ha1 : accepts w1 p (f <$> l) = true)
      by (rewrite (accepts_same w w1) by apply T1; exact Ha).
    destruct (IH w1 _ C1 Ha1) as (w2 & E2 & T2 & C2).
    exists w2. split; [|split].
    + cbn [for_each]. erewrite bind_ok by exact E1. exact E2.
    + apply (touched_trans p [Write p (f x)] _ w w1 w2 T1 T2).
    + rewrite C2, string_app_assoc. simpl.
      rewrite (text_of_same w w1) by apply T1. done.
Qed.

(** The lines before a write that fails reach the file; the rest does not. *)
Lemma for_each_write_stops {A : Type} p (f : A → item) (l1 : list A) x (l2 : list A)
    w d partial e :
  fs w !! p = Some (File true d) → accepts w p (f <$> l1) = true →
  write_error w p (f x) = Some (partial, e) →
  ∃ w', for_each (l1 ++ x :: l2) (λ x, write p (f x)) w = (Raise e, w')
        ∧ trace w' = trace w ++ ((λ x, Write p (f x)) <$> l1)
        ∧ same_setting w w'
        ∧ fs w' !! p = Some (File true (d +:+ text_of w (f <$> l1) +:+ partial))
        ∧ ∀ q, q ≠ p → fs w' !! q = fs w !! q.
Proof.
  revert w d. induction l1 as [|y l1 IH]; intros w d H Ha He.
  - exists (set_fs (insert p (File true (d +:+ partial))) w). split; [|split; [|split; [|split]]].
    + simpl app. cbn [for_each]. erewrite bind_raise; [reflexivity|].
      by apply write_refused.
    + simpl. by rewrite app_nil_r.
    + done.
    + simpl. by rewrite lookup_insert_eq.
    + intros q Hq. simpl. by rewrite lookup_insert_ne.
  - rewrite fmap_cons in Ha. cbn [accepts forallb] in Ha.
    apply andb_prop in Ha as [Hy Ha].
    destruct (write_error w p (f y)) eqn:Hey; [discriminate|].
    destruct (write_content p (f y) w d H Hey) as (w1 & E1 & T1 & C1).
    assert (Ha1 : accepts w1 p (f <$> l1) = true)
      by (rewrite (accepts_same w w1) by apply T1; exact Ha).
    assert (He1 : write_error w1 p (f x) = Some (partial, e)).
    { destruct T1 as (_ & (_ & _ & _ & _ & _ & Hw) & _). by rewrite Hw. }
    destruct (IH w1 _ C1 Ha1 He1) as (w2 & E2 & T2 & S2 & C2 & Q2).
    exists w2. split; [|split; [|split; [|split]]].
    + change ((y :: l1) ++ x :: l2) with (y :: (l1 ++ x :: l2)).
      cbn [for_each]. erewrite bind_ok by exact E1. exact E2.
    + rewrite T2. destruct T1 as (-> & _). rewrite fmap_cons, <- app_assoc. done.
    + eapply same_setting_trans; [apply T1|exact S2].
    + rewrite C2. rewrite (text_of_same w w1) by apply T1. simpl.
      by rewrite !string_app_assoc.
    + intros q Hq. rewrite Q2 by done. by apply (touched_content_other _ _ _ _ _ T1).
Qed.

(** The three stages of the [try] block, each followed by the rest [k]. *)
Lemma markdown_stage {B : Type} p b s (k : M B) w :
  appendable w p = true → accepts w p (md_items b s) = true →
  ∃ w', (open_append p ;;
         for_each (enumerate b (s + 1)) (λ ic, write p (Text (md_line ic.1 ic.2))) ;;
         k) w = k w'
        ∧ touched p ((λ ic, Write p (Text (md_line ic.1 ic.2))) <$> enumerate b (s + 1)) w w'
        ∧ content w' p = content w p +:+ text_of w (md_items b s).
Proof.
  intros H Ha. destruct (open_append_content p w H) as (w1 & E1 & T1 & C1).
  assert (Ha1 : accepts w1 p (md_items b s) = true)
    by (rewrite (accepts_same w w1) by apply T1; exact Ha).
  destruct (for_each_write_content p (λ ic : nat * comment, Text (md_line ic.1 ic.2))
              (enumerate b (s + 1)) w1 _ C1 Ha1) as (w2 & E2 & T2 & C2).
  exists w2. split; [|split].
  - erewrite bind_ok by exact E1. erewrite bind_ok by exact E2. reflexivity.
  - apply (touched_trans p [] _ w w1 w2 T1 T2).
  - unfold content at 1. rewrite C2. rewrite (text_of_same w w1) by apply T1. done.
Qed.

Lemma csv_stage {B : Type} p b s (k : M B) w :
  appendable w p = true → accepts w p (header_items s ++ csv_items b s) = true →
  ∃ w', (open_append p ;;
         (if (s =? 0)%nat then write p (Row csv_header) else mret tt) ;;
         for_each (enumerate b (s + 1)) (λ ic, write p (Row (csv_row ic.1 ic.2))) ;;
         k) w = k w'
        ∧ touched p ((Write p <$> header_items s)
                     ++ ((λ ic, Write p (Row (csv_row ic.1 ic.2))) <$> enumerate b (s + 1)))
            w w'
        ∧ content w' p = content w p +:+ text_of w (header_items s ++ csv_items b s).
Proof.
  intros H Ha. rewrite accepts_app in Ha. apply andb_prop in Ha as [Hh Hr].
  destruct (open_append_content p w H) as (w1 & E1 & T1 & C1).
  assert (∃ w2, (if (s =? 0)%nat then write p (Row csv_header) else mret ()) w1
                = (Ok tt, w2)
                ∧ touched p (Write p <$> header_items s) w1 w2
                ∧ fs w2 !! p
                  = Some (File true (content w p +:+ text_of w (header_items s))))
    as (w2 & E2 & T2 & C2).
  { unfold header_items in *. destruct (s =? 0)%nat.
    - cbn [accepts forallb] in Hh.
      destruct (write_error w p (Row csv_header)) eqn:He; [discriminate|].
      assert (He1 : write_error w1 p (Row csv_header) = None).
      { destruct T1 as (_ & (_ & _ & _ & _ & _ & Hw) & _). by rewrite Hw. }
      destruct (write_content p (Row csv_header) w1 _ C1 He1) as (w2 & E2 & T2 & C2).
      exists w2. split; [done|]. split; [done|]. rewrite C2.
      rewrite (render_same w w1) by apply T1. simpl.
      by rewrite string_app_nil_r.
    - exists w1. split; [reflexivity|]. split; [by eapply touched_refl|].
      simpl. by rewrite string_app_nil_r. }
  pose proof (touched_trans p _ _ w w1 w2 T1 T2) as T12.
  assert (Hr2 : accepts w2 p (csv_items b s) = true)
    by (rewrite (accepts_same w w2) by apply T12; exact Hr).
  destruct (for_each_write_content p (λ ic : nat * comment, Row (csv_row ic.1 ic.2))
              (enumerate b (s + 1)) w2 _ C2 Hr2) as (w3 & E3 & T3 & C3).
  exists w3. split; [|split].
  - erewrite bind_ok by exact E1. erewrite bind_ok by exact E2.
    erewrite bind_ok by exact E3. reflexivity.
  - apply (touched_trans p _ _ w w2 w3 T12 T3).
  - unfold content at 1. rewrite C3, text_of_app, string_app_assoc.
    rewrite (text_of_same w w2) by apply T12. done.
Qed.

Lemma json_stage {B : Type} p b (k : M B) w :
  appendable w p = true → accepts w p [Json b] = true →
  ∃ w', (open_append p ;; write p (Json b) ;; k) w = k w'
        ∧ touched p [Write p (Json b)] w w'
        ∧ content w' p = content w p +:+ text_of w [Json b].
Proof.
  intros H Ha. cbn [accepts forallb] in Ha.
  destruct (write_error w p (Json b)) eqn:He; [discriminate|].
  destruct (open_append_content p w H) as (w1 & E1 & T1 & C1).
  assert (He1 : write_error w1 p (Json b) = None).
  { destruct T1 as (_ & (_ & _ & _ & _ & _ & Hw) & _). by rewrite Hw. }
  destruct (write_content p (Json b) w1 _ C1 He1) as (w2 & E2 & T2 & C2).
  exists w2. split; [|split].
  - erewrite bind_ok by exact E1. erewrite bind_ok by exact E2. reflexivity.
  - apply (touched_trans p [] _ w w1 w2 T1 T2).
  - unfold content at 1. rewrite C2.
    rewrite (render_same w w1) by apply T1. simpl.
    by rewrite string_app_nil_r.
Qed.

(* ===================================================================== *)
(** * [save_comments]                                                    *)
(* ===================================================================== *)

Lemma refused_same w w' p its : same_setting w w' → refused w' p its = refused w p its.
Proof.
  intros (_ & _ & _ & _ & _ & He). induction its as [|it its IH]; simpl; [done|].
  by rewrite He, IH.
Qed.

Lemma accepts_refused w p its :
  accepts w p its = true ↔ refused w p its = None.
Proof.
  induction its as [|it its IH]; simpl; [done|].
  destruct (write_error w p it) as [[partial e]|]; simpl; [split; discriminate|exact IH].
Qed.

Lemma refused_some w p its :
  accepts w p its = false → ∃ e, refused w p its = Some e.
Proof.
  intros H. destruct (refused w p its) as [e|] eqn:E; [eauto|].
  apply accepts_refused in E. congruence.
Qed.

Lemma flush_error_same w w' vid b s :
  same_setting w w' → flush_error w' vid b s = flush_error w vid b s.
Proof.
  intros S. unfold flush_error. rewrite !(refused_same w w') by exact S.
  by replace (today w') with (today w) by (symmetry; apply S).
Qed.

Lemma flush_accepted_same w w' vid b s :
  same_setting w w' → flush_accepted w' vid b s = flush_accepted w vid b s.
Proof.
  intros S. unfold flush_accepted. rewrite !(accepts_same w w') by exact S.
  by replace (today w') with (today w) by (symmetry; apply S).
Qed.

Lemma flushes_accepted_same w w' vid bs s :
  same_setting w w' → flushes_accepted w' vid bs s = flushes_accepted w vid bs s.
Proof.
  intros S. revert s. induction bs as [|b bs IH]; intros s; simpl; [done|].
  by rewrite IH, (flush_accepted_same w w').
Qed.

(** A loop of writes raises at the first item that is refused. *)
Lemma for_each_write_fails {A : Type} p (f : A → item) (l : list A) w d e :
  fs w !! p = Some (File true d) → refused w p (f <$> l) = Some e →
  ∃ w', for_each l (λ x, write p (f x)) w = (Raise e, w').
Proof.
  revert w d. induction l as [|x l IH]; intros w d H Hr; [discriminate|].
  rewrite fmap_cons in Hr. cbn [refused] in Hr.
  destruct (write_error w p (f x)) as [[partial e']|] eqn:He.
  - injection Hr as ->. eexists. cbn [for_each].
    erewrite bind_raise; [reflexivity|]. by eapply write_refused.
  - destruct (write_content p (f x) w d H He) as (w1 & E1 & T1 & C1).
    assert (Hr1 : refused w1 p (f <$> l) = Some e)
      by (rewrite (refused_same w w1) by apply T1; exact Hr).
    destruct (IH w1 _ C1 Hr1) as (w2 & E2).
    exists w2. cbn [for_each]. erewrite bind_ok by exact E1. exact E2.
Qed.

Lemma markdown_stage_fail {B : Type} p b s (k : M B) w e :
  appendable w p = true → refused w p (md_items b s) = Some e →
  ∃ w', (open_append p ;;
         for_each (enumerate b (s + 1)) (λ ic, write p (Text (md_line ic.1 ic.2))) ;;
         k) w = (Raise e, w').
Proof.
  intros H Hr. destruct (open_append_content p w H) as (w1 & E1 & T1 & C1).
  assert (Hr1 : refused w1 p (md_items b s) = Some e)
    by (rewrite (refused_same w w1) by apply T1; exact Hr).
  destruct (for_each_write_fails p (λ ic : nat * comment, Text (md_line ic.1 ic.2))
              (enumerate b (s + 1)) w1 _ e C1 Hr1) as (w2 & E2).
  exists w2. erewrite bind_ok by exact E1. erewrite bind_raise by exact E2. reflexivity.
Qed.

Lemma csv_stage_fail {B : Type} p b s (k : M B) w e :
  appendable w p = true → refused w p (header_items s ++ csv_items b s) = Some e →
  ∃ w', (open_append p ;;
         (if (s =? 0)%nat then write p (Row csv_header) else mret tt) ;;
         for_each (enumerate b (s + 1)) (λ ic, write p (Row (csv_row ic.1 ic.2))) ;;
         k) w = (Raise e, w').
Proof.
  intros H Hr. destruct (open_append_content p w H) as (w1 & E1 & T1 & C1).
  rewrite <- (refused_same w w1) in Hr by apply T1.
  erewrite bind_ok by exact E1.
  unfold header_items in Hr. destruct (s =? 0)%nat.
  - simpl app in Hr. cbn [refused] in Hr.
    destruct (write_error w1 p (Row csv_header)) as [[partial e']|] eqn:He.
    + injection Hr as ->. eexists.
      erewrite bind_raise; [reflexivity|]. by eapply write_refused.
    + destruct (write_content p _ w1 _ C1 He) as (w2 & E2 & T2 & C2).
      rewrite <- (refused_same w1 w2) in Hr by apply T2.
      destruct (for_each_write_fails p (λ ic : nat * comment, Row (csv_row ic.1 ic.2))
                  (enumerate b (s + 1)) w2 _ e C2 Hr) as (w3 & E3).
      exists w3. erewrite bind_ok by exact E2. erewrite bind_raise by exact E3.
      reflexivity.
  - simpl app in Hr.
    destruct (for_each_write_fails p (λ ic : nat * comment, Row (csv_row ic.1 ic.2))
                (enumerate b (s + 1)) w1 _ e C1 Hr) as (w3 & E3).
    exists w3. erewrite bind_ok by reflexivity. erewrite bind_raise by exact E3.
    reflexivity.
Qed.

Lemma json_stage_fail {B : Type} p b (k : M B) w e :
  appendable w p = true → refused w p [Json b] = Some e →
  ∃ w', (open_append p ;; write p (Json b) ;; k) w = (Raise e, w').
Proof.
  intros H Hr. destruct (open_append_content p w H) as (w1 & E1 & T1 & C1).
  rewrite <- (refused_same w w1) in Hr by apply T1. cbn [refused] in Hr.
  destruct (write_error w1 p (Json b)) as [[partial e']|] eqn:He; [|discriminate].
  injection Hr as ->. eexists. erewrite bind_ok by exact E1.
  erewrite bind_raise; [reflexivity|]. by eapply write_refused.
Qed.

Lemma stage_open_fail {B : Type} p (k : M B) w :
  appendable w p = false → ∃ m, (open_append p ;; k) w = (Raise (OSError m), w).
Proof.
  intros H. destruct (open_append_fail p w H) as [m E]. exists m.
  by erewrite bind_raise by exact E.
Qed.

(** The [try] block when the three files can be opened and every write is
    accepted: it returns the start index plus the size of the batch, and
    each file holds what it held followed by what was written to it. *)
Lemma save_comments_body_ok b s vid w :
  outputs_appendable w vid = true → flush_accepted w vid b s = true →
  ∃ w', save_comments_body b s vid w = (Ok (s + length b), w')
        ∧ saved vid (body_events b s vid (today w)) w w'
        ∧ fs w' !! markdown_path vid (today w)
          = Some (File true (content w (markdown_path vid (today w))
                             +:+ text_of w (md_items b s)))
        ∧ fs w' !! csv_path vid (today w)
          = Some (File true (content w (csv_path vid (today w))
                             +:+ text_of w (header_items s ++ csv_items b s)))
        ∧ fs w' !! json_path vid (today w)
          = Some (File true (content w (json_path vid (today w))
                             +:+ text_of w [Json b])).
Proof.
  unfold outputs_appendable, flush_accepted. intros H A.
  apply andb_prop in H as [H Hj]. apply andb_prop in H as [Hm Hc].
  apply andb_prop in A as [A Aj]. apply andb_prop in A as [Am Ac].
  destruct (paths_distinct vid (today w)) as (Nmc & Nmj & Ncj).
  set (md := markdown_path vid (today w)) in *.
  set (cs := csv_path vid (today w)) in *.
  set (js := json_path vid (today w)) in *.
  destruct (markdown_stage md b s
    (open_append cs ;;
     (if (s =? 0)%nat then write cs (Row csv_header) else mret ()) ;;
     for_each (enumerate b (s + 1)) (λ ic, write cs (Row (csv_row ic.1 ic.2))) ;;
     open_append js ;; write js (Json b) ;; mret (s + length b)) w Hm Am)
    as (w1 & E1 & T1 & C1).
  assert (Hc1 : appendable w1 cs = true)
    by (rewrite (touched_appendable _ _ _ _ _ T1); auto).
  assert (Ac1 : accepts w1 cs (header_items s ++ csv_items b s) = true)
    by (rewrite (accepts_same w w1) by apply T1; exact Ac).
  destruct (csv_stage cs b s
    (open_append js ;; write js (Json b) ;; mret (s + length b)) w1 Hc1 Ac1)
    as (w2 & E2 & T2 & C2).
  assert (S12 : same_setting w w2)
    by (eapply same_setting_trans; [apply T1|apply T2]).
  assert (Hj2 : appendable w2 js = true).
  { rewrite (touched_appendable _ _ _ _ _ T2), (touched_appendable _ _ _ _ _ T1); auto. }
  assert (Aj2 : accepts w2 js [Json b] = true)
    by (rewrite (accepts_same w w2) by exact S12; exact Aj).
  destruct (json_stage js b (mret (s + length b)) w2 Hj2 Aj2) as (w3 & E3 & T3 & C3).
  assert (Fm : fs w3 !! md = Some (File true (content w md +:+ text_of w (md_items b s)))).
  { rewrite (touched_content_other _ _ _ _ _ T3), (touched_content_other _ _ _ _ _ T2) by auto.
    rewrite (touched_content _ _ _ _ T1), C1. reflexivity. }
  assert (Fc : fs w3 !! cs
               = Some (File true (content w cs
                                  +:+ text_of w (header_items s ++ csv_items b s)))).
  { rewrite (touched_content_other _ _ _ _ _ T3) by auto.
    rewrite (touched_content _ _ _ _ T2), C2.
    rewrite (content_frame w w1 cs) by (apply (touched_content_other _ _ _ _ _ T1); auto).
    rewrite (text_of_same w w1) by apply T1. reflexivity. }
  assert (Fj : fs w3 !! js = Some (File true (content w js +:+ text_of w [Json b]))).
  { rewrite (touched_content _ _ _ _ T3), C3.
    rewrite (content_frame w1 w2 js) by (apply (touched_content_other _ _ _ _ _ T2); auto).
    rewrite (content_frame w w1 js) by (apply (touched_content_other _ _ _ _ _ T1); auto).
    rewrite (text_of_same w w2) by exact S12. reflexivity. }
  exists w3. split; [|split; [|auto]].
  - unfold save_comments_body.
    erewrite bind_ok by reflexivity. cbv zeta.
    change ("comments_" +:+ vid +:+ "_" +:+ today w +:+ ".md") with md.
    change ("comments_" +:+ vid +:+ "_" +:+ today w +:+ ".csv") with cs.
    change ("comments_" +:+ vid +:+ "_" +:+ today w +:+ ".json") with js.
    rewrite E1, E2, E3. reflexivity.
  - assert (S : same_setting w w3)
      by (eapply same_setting_trans; [exact S12|apply T3]).
    split; [|split; [exact S|split]].
    + destruct T1 as (Ht1 & _), T2 as (Ht2 & _), T3 as (Ht3 & _).
      rewrite Ht3, Ht2, Ht1. unfold body_events, header_items. fold md cs js.
      destruct (s =? 0)%nat; simpl; by rewrite <- ?app_assoc.
    + unfold outputs_appendable, appendable.
      replace (today w3) with (today w) by (symmetry; apply S). fold md cs js.
      by rewrite Fm, Fc, Fj.
    + intros q Q1 Q2 Q3.
      rewrite (touched_content_other _ _ _ _ _ T3), (touched_content_other _ _ _ _ _ T2),
        (touched_content_other _ _ _ _ _ T1); auto.
Qed.

(** A flush that meets no failure: the running total advances by the size
    of the batch. *)
Lemma save_comments_ok b s vid w :
  outputs_appendable w vid = true → flush_accepted w vid b s = true →
  ∃ w', save_comments b s vid w = (Ok (s + length b), w')
        ∧ saved vid (Flush b s :: body_events b s vid (today w)) w w'
        ∧ fs w' !! markdown_path vid (today w)
          = Some (File true (content w (markdown_path vid (today w))
                             +:+ text_of w (md_items b s)))
        ∧ fs w' !! csv_path vid (today w)
          = Some (File true (content w (csv_path vid (today w))
                             +:+ text_of w (header_items s ++ csv_items b s)))
        ∧ fs w' !! json_path vid (today w)
          = Some (File true (content w (json_path vid (today w))
                             +:+ text_of w [Json b])).
Proof.
  intros H A.
  set (w0 := set_trace (λ t, t ++ [Flush b s]) w).
  destruct (save_comments_body_ok b s vid w0 H A)
    as (w' & E & (Ht & Hs & Ha & Hq) & Fm & Fc & Fj).
  exists w'. split; [|split; [|auto]].
  - unfold save_comments. erewrite bind_ok by reflexivity.
    unfold try_except. fold w0. by rewrite E.
  - split; [|split; [exact Hs|split; [exact Ha|exact Hq]]].
    rewrite Ht. simpl. by rewrite <- app_assoc.
Qed.

(** The [try] block when a file cannot be opened or a write is refused: it
    raises; and when the files can be opened, it raises the exception of
    the first write that is refused. *)
Lemma save_comments_body_fail b s vid w :
  outputs_appendable w vid && flush_accepted w vid b s = false →
  ∃ e w', save_comments_body b s vid w = (Raise e, w')
          ∧ (outputs_appendable w vid = true → flush_error w vid b s = Some e).
Proof.
  unfold outputs_appendable, flush_accepted, flush_error. intros H.
  destruct (paths_distinct vid (today w)) as (Nmc & Nmj & Ncj).
  set (md := markdown_path vid (today w)) in *.
  set (cs := csv_path vid (today w)) in *.
  set (js := json_path vid (today w)) in *.
  unfold save_comments_body.
  erewrite bind_ok by reflexivity. cbv zeta.
  change ("comments_" +:+ vid +:+ "_" +:+ today w +:+ ".md") with md.
  change ("comments_" +:+ vid +:+ "_" +:+ today w +:+ ".csv") with cs.
  change ("comments_" +:+ vid +:+ "_" +:+ today w +:+ ".json") with js.
  set (kj := open_append js ;; write js (Json b) ;; mret (s + length b)).
  set (kc := open_append cs ;;
             (if (s =? 0)%nat then write cs (Row csv_header) else mret ()) ;;
             for_each (enumerate b (s + 1)) (λ ic, write cs (Row (csv_row ic.1 ic.2))) ;;
             kj).
  destruct (appendable w md) eqn:Hm.
  2:{ destruct (stage_open_fail md
                  (for_each (enumerate b (s + 1))
                     (λ ic, write md (Text (md_line ic.1 ic.2))) ;; kc) w Hm) as [m E].
      eexists _, _. split; [exact E|]. discriminate. }
  destruct (accepts w md (md_items b s)) eqn:Am.
  2:{ destruct (refused_some _ _ _ Am) as [e Rm].
      destruct (markdown_stage_fail md b s kc w e Hm Rm) as [w1 E].
      eexists _, _. split; [exact E|]. by rewrite Rm. }
  destruct (markdown_stage md b s kc w Hm Am) as (w1 & E1 & T1 & C1).
  rewrite E1. clear E1.
  apply accepts_refused in Am. rewrite Am.
  destruct (appendable w cs) eqn:Hc.
  2:{ assert (Hc1 : appendable w1 cs = false)
        by (rewrite (touched_appendable _ _ _ _ _ T1); auto).
      destruct (stage_open_fail cs
                  ((if (s =? 0)%nat then write cs (Row csv_header) else mret ()) ;;
                   for_each (enumerate b (s + 1))
                     (λ ic, write cs (Row (csv_row ic.1 ic.2))) ;; kj) w1 Hc1) as [m E].
      eexists _, _. split; [exact E|]. discriminate. }
  assert (Hc1 : appendable w1 cs = true)
    by (rewrite (touched_appendable _ _ _ _ _ T1); auto).
  destruct (accepts w cs (header_items s ++ csv_items b s)) eqn:Ac.
  2:{ destruct (refused_some _ _ _ Ac) as [e Rc].
      assert (Rc1 : refused w1 cs (header_items s ++ csv_items b s) = Some e)
        by (rewrite (refused_same w w1) by apply T1; exact Rc).
      destruct (csv_stage_fail cs b s kj w1 e Hc1 Rc1) as [w2 E].
      eexists _, _. split; [exact E|]. by rewrite Rc. }
  assert (Ac1 : accepts w1 cs (header_items s ++ csv_items b s) = true)
    by (rewrite (accepts_same w w1) by apply T1; exact Ac).
  destruct (csv_stage cs b s kj w1 Hc1 Ac1) as (w2 & E2 & T2 & C2).
  unfold kc. rewrite E2. clear E2.
  apply accepts_refused in Ac. rewrite Ac.
  assert (S12 : same_setting w w2)
    by (eapply same_setting_trans; [apply T1|apply T2]).
  assert (Hj2 : appendable w2 js = appendable w js).
  { rewrite (touched_appendable _ _ _ _ _ T2), (touched_appendable _ _ _ _ _ T1); auto. }
  destruct (appendable w js) eqn:Hj.
  2:{ destruct (stage_open_fail js (write js (Json b) ;; mret (s + length b)) w2 Hj2)
        as [m E].
      eexists _, _. split; [exact E|]. discriminate. }
  cbn [andb] in H. destruct (refused_some _ _ _ H) as [e Rj].
  assert (Rj2 : refused w2 js [Json b] = Some e)
    by (rewrite (refused_same w w2) by exact S12; exact Rj).
  destruct (json_stage_fail js b (mret (s + length b)) w2 e Hj2 Rj2) as [w3 E].
  eexists _, _. split; [exact E|]. by rewrite Rj.
Qed.

(** A flush that meets a failure logs the exception and returns the start
    index it was given. *)
Lemma save_comments_fail b s vid w :
  outputs_appendable w vid && flush_accepted w vid b s = false →
  ∃ e w', save_comments b s vid w
          = (Ok s, set_trace (λ t, t ++ [Log ERROR ("Comments could not be saved: "
                                                    +:+ exn_str e)]) w')
          ∧ save_comments_body b s vid (set_trace (λ t, t ++ [Flush b s]) w)
            = (Raise e, w')
          ∧ (outputs_appendable w vid = true → flush_error w vid b s = Some e).
Proof.
  intros H.
  set (w0 := set_trace (λ t, t ++ [Flush b s]) w).
  destruct (save_comments_body_fail b s vid w0 H) as (e & w' & E & He).
  exists e, w'. split; [|split; [exact E|]].
  - unfold save_comments. erewrite bind_ok by reflexivity.
    unfold try_except. fold w0. rewrite E. reflexivity.
  - intros Ha. rewrite <- (He Ha). symmetry. by apply flush_error_same.
Qed.

(** ** What any flush does, whether the files can be written or not *)

Lemma inert_ret {A : Type} (a : A) : inert (mret a).
Proof. intros w. exists []. simpl. by rewrite app_nil_r. Qed.

Lemma inert_bind {A B : Type} (m : M A) (f : A → M B) :
  inert m → (∀ a, inert (f a)) → inert (m ≫= f).
Proof.
  intros Hm Hf w. destruct (Hm w) as (e1 & T1 & F1 & G1 & S1).
  unfold mbind, M_bind. destruct (m w) as [[a|e] w1]; simpl in *.
  - destruct (Hf a w1) as (e2 & T2 & F2 & G2 & S2).
    exists (e1 ++ e2). rewrite T2, T1, app_assoc, flushes_app, gets_app, F1, F2, G1, G2.
    repeat split; try done; eapply same_setting_trans; eauto.
  - exists e1. auto.
Qed.

Lemma inert_open_append p : inert (open_append p).
Proof.
  intros w. exists []. rewrite app_nil_r. unfold open_append.
  destruct (fs w !! p) as [[[|] d|]|]; [| | |destruct (can_create w p)];
    simpl; unfold same_setting; auto 10.
Qed.

Lemma inert_write p it : inert (write p it).
Proof.
  intros w. unfold write.
  destruct (fs w !! p) as [[[|] d|]|]; [destruct (write_error w p it) as [[partial e]|]| | |];
    simpl; first [ by exists [Write p it] | exists []; rewrite app_nil_r; by auto ].
Qed.

Lemma inert_log lvl msg : inert (emit (Log lvl msg)).
Proof. intros w. by exists [Log lvl msg]. Qed.

Lemma inert_for_each {A : Type} (l : list A) (f : A → M unit) :
  (∀ x, inert (f x)) → inert (for_each l f).
Proof.
  intros Hf. induction l as [|x l IH]; simpl.
  - apply inert_ret.
  - apply inert_bind; auto.
Qed.

Lemma inert_try_except {A : Type} (m : M A) (h : exn → M A) :
  inert m → (∀ e, inert (h e)) → inert (try_except m h).
Proof.
  intros Hm Hh w. destruct (Hm w) as (e1 & T1 & F1 & G1 & S1).
  unfold try_except. destruct (m w) as [[a|e] w1]; simpl in *.
  - exists e1. auto.
  - destruct (Hh e w1) as (e2 & T2 & F2 & G2 & S2).
    exists (e1 ++ e2). rewrite T2, T1, app_assoc, flushes_app, gets_app, F1, F2, G1, G2.
    repeat split; try done; eapply same_setting_trans; eauto.
Qed.

Lemma inert_save_comments_body b s vid : inert (save_comments_body b s vid).
Proof.
  unfold save_comments_body.
  apply inert_bind; [intros w; exists []; simpl; by rewrite app_nil_r|].
  intros date. cbv zeta.
  repeat (first [ apply inert_bind; [|intros ?]
                | apply inert_open_append | apply inert_write
                | apply inert_for_each; intros ?
                | apply inert_ret
                | destruct (s =? 0)%nat ]).
Qed.

(** [save_comments] never raises. Its events are the mark of the call and
    then writes and at most a log entry. *)
Lemma save_comments_any b s vid w :
  ∃ n w' evs, save_comments b s vid w = (Ok n, w')
    ∧ trace w' = trace w ++ Flush b s :: evs
    ∧ flushes evs = [] ∧ gets evs = [] ∧ same_setting w w'.
Proof.
  set (w0 := set_trace (λ t, t ++ [Flush b s]) w).
  assert (Hin : inert (try_except (save_comments_body b s vid)
             (λ e, logging_error ("Comments could not be saved: " +:+ exn_str e) ;;
                   mret s))).
  { apply inert_try_except; [apply inert_save_comments_body|].
    intros e. apply inert_bind; [apply inert_log|intros; apply inert_ret]. }
  destruct (Hin w0) as (evs & T & F & G & S).
  assert (Hok : ∃ n w', try_except (save_comments_body b s vid)
             (λ e, logging_error ("Comments could not be saved: " +:+ exn_str e) ;;
                   mret s) w0 = (Ok n, w')).
  { unfold try_except. destruct (save_comments_body b s vid w0) as [[a|e] w1]; eauto. }
  destruct Hok as (n & w' & E). rewrite E in T, S. simpl in T, S.
  exists n, w', evs. split; [|split; [|auto]].
  - unfold save_comments. erewrite bind_ok by reflexivity. exact E.
  - rewrite T. simpl. by rewrite <- app_assoc.
Qed.

(* ===================================================================== *)
(** * [get_current_comment_count]                                        *)
(* ===================================================================== *)

(** The lookup of [video_id] fails before any file is looked at. *)
Lemma get_current_comment_count_eq w :
  get_current_comment_count w
  = (Ok 0, set_trace (λ t, t ++ [Log ERROR count_error]) w).
Proof.
  unfold get_current_comment_count, try_except, mbind, M_bind, load_global.
  rewrite module_has_no_video_id. reflexivity.
Qed.

(* ===================================================================== *)
(** * The loop                                                           *)
(* ===================================================================== *)

Lemma iteration_keep items tok vid key c tk total w :
  (100 <=? length (c ++ (to_comment <$> items)))%nat = false →
  iteration (Page items tok) vid key c tk total w
  = (Ok (c ++ (to_comment <$> items), total, tok), requested vid tk key w).
Proof.
  intros H. unfold iteration.
  erewrite bind_ok by reflexivity.
  cbv zeta. simpl fst. simpl snd. rewrite H. reflexivity.
Qed.

Lemma iteration_flush items tok vid key c tk total w n w' :
  (100 <=? length (c ++ (to_comment <$> items)))%nat = true →
  save_comments (c ++ (to_comment <$> items)) total vid (requested vid tk key w)
  = (Ok n, w') →
  iteration (Page items tok) vid key c tk total w = (Ok ([], n, tok), w').
Proof.
  intros H E. unfold iteration.
  erewrite bind_ok by reflexivity.
  cbv zeta. simpl fst. simpl snd. rewrite H.
  erewrite bind_ok; [|erewrite bind_ok by exact E; reflexivity].
  reflexivity.
Qed.

Lemma iteration_failure r e vid key c tk total w :
  failure_of r = Some e →
  iteration r vid key c tk total w = (Raise e, requested vid tk key w).
Proof.
  intros H. unfold iteration, fetch.
  destruct r; simplify_eq/=; reflexivity.
Qed.

(** One iteration on a page, whatever the state of the files: the new
    batch is the one [pending] computes, and the flushes are those of
    [loop_batches]. *)
Lemma iteration_page items tok vid key c tk total w :
  ∃ total' w' evs,
    iteration (Page items tok) vid key c tk total w
    = (Ok (pending [items] c, total', tok), w')
    ∧ trace w' = trace w ++ Get vid tk key :: evs
    ∧ (flushes evs).*1 = loop_batches [items] c
    ∧ gets evs = [] ∧ same_setting w w'.
Proof.
  cbn [pending loop_batches].
  destruct (100 <=? length (c ++ (to_comment <$> items)))%nat eqn:H.
  - destruct (save_comments_any (c ++ (to_comment <$> items)) total vid
                (requested vid tk key w)) as (n & w' & evs & E & T & F & G & S).
    exists n, w', (Flush (c ++ (to_comment <$> items)) total :: evs).
    split; [by apply iteration_flush|].
    split; [rewrite T; simpl; by rewrite <- app_assoc|].
    simpl. rewrite F, G. auto.
  - exists total, (requested vid tk key w), [].
    split; [by apply iteration_keep|]. by simpl.
Qed.

Lemma pending_cons p ps c : pending (p :: ps) c = pending ps (pending [p] c).
Proof. reflexivity. Qed.

Lemma loop_batches_cons p ps c :
  loop_batches (p :: ps) c = loop_batches [p] c ++ loop_batches ps (pending [p] c).
Proof.
  cbn [loop_batches pending].
  by destruct (100 <=? length (c ++ (to_comment <$> p)))%nat.
Qed.

(** The loop over a complete pagination ends at the [break], whatever the
    state of the files. *)
Lemma fetch_loop_pagination pages final vid key :
  Forall (λ r, has_next r = true) pages → is_final final = true →
  ∀ c tk total w, ∃ total' w' evs,
    fetch_loop (pages ++ [final]) vid key c tk total w
    = (Ok (pending (page_items <$> pages ++ [final]) c, total'), w')
    ∧ trace w' = trace w ++ evs
    ∧ (flushes evs).*1 = loop_batches (page_items <$> pages ++ [final]) c
    ∧ length (gets evs) = length pages + 1
    ∧ same_setting w w'.
Proof.
  intros Hp Hf. induction Hp as [|r pages Hr Hp IH]; intros c tk total w.
  - destruct final as [| | |items tok]; try discriminate. simpl in Hf.
    destruct (iteration_page items tok vid key c tk total w)
      as (n & w' & evs & E & T & F & G & S).
    exists n, w', (Get vid tk key :: evs). simpl app. simpl fmap.
    split; [|simpl; rewrite G; auto].
    cbn [fetch_loop]. erewrite bind_ok by exact E. cbn [fst snd].
    apply negb_true_iff in Hf. rewrite Hf. reflexivity.
  - destruct r as [| | |items tok]; try discriminate. simpl in Hr.
    destruct (iteration_page items tok vid key c tk total w)
      as (n & w1 & evs1 & E & T & F & G & S).
    destruct (IH (pending [items] c) tok n w1)
      as (n' & w' & evs2 & E2 & T2 & F2 & G2 & S2).
    exists n', w', ((Get vid tk key :: evs1) ++ evs2).
    split; [|split; [|split; [|split]]].
    + simpl app. cbn [fetch_loop]. erewrite bind_ok by exact E. cbn [fst snd].
      rewrite Hr, E2.
      rewrite fmap_cons, pending_cons. reflexivity.
    + rewrite T2, T. by rewrite <- app_assoc.
    + change ((Page items tok :: pages) ++ [final])
        with (Page items tok :: (pages ++ [final])).
      rewrite fmap_cons, loop_batches_cons, flushes_app, fmap_app.
      change (flushes (Get vid tk key :: evs1)) with (flushes evs1).
      rewrite F, F2. reflexivity.
    + rewrite gets_app. simpl. rewrite G, length_app, G2. simpl. lia.
    + eapply same_setting_trans; eauto.
Qed.

(** The loop in general: a prefix of pages that all carry a token brings
    the loop to the next response in the state [iterations] computes. *)
Lemma iterations_pages pages vid key :
  Forall (λ r, has_next r = true) pages →
  ∀ c tk total w, ∃ c' total' tk' w',
    iterations pages vid key c tk total w = (Ok (c', total', tk'), w')
    ∧ same_setting w w'.
Proof.
  induction 1 as [|r pages Hr Hp IH]; intros c tk total w.
  - exists c, total, tk, w. by split.
  - destruct r as [| | |items tok]; try discriminate.
    destruct (iteration_page items tok vid key c tk total w)
      as (n & w1 & evs1 & E & _ & _ & _ & S).
    destruct (IH (pending [items] c) tok n w1) as (c' & n' & tk' & w' & E2 & S2).
    exists c', n', tk', w'. split; [|eapply same_setting_trans; eauto].
    cbn [iterations]. erewrite bind_ok by exact E. exact E2.
Qed.

Lemma fetch_loop_prefix pages rest vid key :
  Forall (λ r, has_next r = true) pages →
  ∀ c tk total w c' total' tk' w',
    iterations pages vid key c tk total w = (Ok (c', total', tk'), w') →
    fetch_loop (pages ++ rest) vid key c tk total w
    = fetch_loop rest vid key c' tk' total' w'.
Proof.
  induction 1 as [|r pages Hr Hp IH]; intros c tk total w c' total' tk' w' E.
  - simpl in E. unfold mret, M_ret in E. by simplify_eq.
  - destruct r as [| | |items tok]; try discriminate. simpl in Hr.
    destruct (iteration_page items tok vid key c tk total w)
      as (n & w1 & evs1 & E1 & _).
    cbn [iterations] in E. erewrite bind_ok in E by exact E1. cbn [fst snd] in E.
    simpl app. cbn [fetch_loop]. erewrite bind_ok by exact E1. cbn [fst snd].
    rewrite Hr. by apply IH.
Qed.

(* ===================================================================== *)
(** * [_run] around the loop                                             *)
(* ===================================================================== *)

Lemma run_no_key net vid w :
  truthy (api_key w) = false →
  _run net vid w
  = (Ok [], set_trace (λ t, t ++ [Log ERROR "YOUTUBE_API_KEY environment variable not set."]) w).
Proof.
  intros H. unfold _run, try_except.
  erewrite bind_ok by reflexivity. fold (api_key w). rewrite H. reflexivity.
Qed.

Lemma run_break net vid w c t w2 n w3 :
  truthy (api_key w) = true →
  fetch_loop net vid (default EmptyString (api_key w)) [] None 0 (started w) = (Ok (c, t), w2) →
  save_comments c t vid w2 = (Ok n, w3) →
  _run net vid w
  = (Ok c, set_trace (λ tr, tr ++ [Log INFO ("Total " +:+ pretty t +:+ " comments fetched.")]) w3).
Proof.
  intros H E Es. unfold _run, try_except.
  erewrite bind_ok by reflexivity. fold (api_key w). rewrite H. cbv zeta.
  erewrite bind_ok by reflexivity.
  erewrite bind_ok by apply get_current_comment_count_eq.
  erewrite bind_ok by exact E. cbn [fst snd].
  erewrite bind_ok by exact Es. reflexivity.
Qed.

Lemma run_abort net vid w e w2 :
  truthy (api_key w) = true →
  fetch_loop net vid (default EmptyString (api_key w)) [] None 0 (started w) = (Raise e, w2) →
  _run net vid w = (Ok [], set_trace (λ tr, tr ++ [Log ERROR (abort_message e)]) w2).
Proof.
  intros H E. unfold _run, try_except.
  erewrite bind_ok by reflexivity. fold (api_key w). rewrite H. cbv zeta.
  erewrite bind_ok by reflexivity.
  erewrite bind_ok by apply get_current_comment_count_eq.
  erewrite bind_raise by exact E. by destruct e.
Qed.

Lemma truthy_key w key :
  api_key w = Some key → key ≠ EmptyString →
  truthy (api_key w) = true ∧ default EmptyString (api_key w) = key.
Proof.
  intros -> Hk. split; [|done]. simpl. apply negb_true_iff.
  by apply String.eqb_neq.
Qed.

(* ===================================================================== *)
(** * The pattern of [extract_video_id]                                  *)
(* ===================================================================== *)

Lemma list_ascii_of_string_app (a b : string) :
  list_ascii_of_string (a +:+ b) = list_ascii_of_string a ++ list_ascii_of_string b.
Proof. induction a as [|c a IH]; simpl; [done|]. by rewrite IH. Qed.

Lemma list_ascii_of_string_length (a : string) :
  length (list_ascii_of_string a) = String.length a.
Proof. induction a as [|c a IH]; simpl; [done|]. by rewrite IH. Qed.

(** [r{n}] on a character class. *)
Lemma rep_cls p n s g k :
  Re.rep_loop (Re.rmatch (Re.Cls p)) n s g k
  = if (n <=? length s)%nat && forallb p (take n s) then k (drop n s) g else None.
Proof.
  revert s. induction n as [|n IH]; intros s; [done|].
  destruct s as [|a s]; [done|]. cbn [Re.rep_loop Re.rmatch].
  destruct (p a) eqn:Hp.
  - rewrite IH. simpl. by rewrite Hp.
  - simpl. rewrite Hp. by rewrite andb_false_r.
Qed.

(** [.*] followed by nothing always matches. *)
Lemma star_dot_total fuel s g :
  Re.star_loop (Re.rmatch Re.Dot) fuel s g (λ _ g', Some g') = Some g.
Proof.
  revert s. induction fuel as [|fuel IH]; intros s; [done|].
  cbn [Re.star_loop Re.rmatch]. destruct s as [|a s]; [done|].
  destruct (Ascii.eqb a Re.newline); [done|].
  destruct (length s <? length (a :: s))%nat; [|done]. by rewrite IH.
Qed.

Lemma rmatch_rep_cls p n s g k :
  Re.rmatch (Re.Rep n (Re.Cls p)) s g k
  = if (n <=? length s)%nat && forallb p (take n s) then k (drop n s) g else None.
Proof. apply rep_cls. Qed.

Lemma rmatch_star_dot s g : Re.rmatch (Re.Star Re.Dot) s g (λ _ g', Some g') = Some g.
Proof. apply star_dot_total. Qed.

Lemma rmatch_cat r1 r2 s g k :
  Re.rmatch (Re.Cat r1 r2) s g k = Re.rmatch r1 s g (λ s' g', Re.rmatch r2 s' g' k).
Proof. reflexivity. Qed.

Lemma rmatch_grp r s g k :
  Re.rmatch (Re.Grp r) s g k
  = Re.rmatch r s g (λ s' _, k s' (Some (take (length s - length s') s))).
Proof. reflexivity. Qed.

(** Anchored at a position, the pattern matches exactly where [candidate]
    says, and captures what it says. *)
Lemma match_here_pattern s :
  Re.match_here video_id_pattern s = Some <$> candidate s.
Proof.
  assert (Hid : ∀ t t0,
    Re.rmatch (Re.Cat (Re.Grp (Re.Rep 11 (Re.Cls id_char))) (Re.Star Re.Dot))
      t t0 (λ _ g, Some g) = Some <$> id_at t).
  { intros t t0. rewrite rmatch_cat, rmatch_grp, rmatch_rep_cls. unfold id_at.
    destruct ((11 <=? length t)%nat && forallb id_char (take 11 t)) eqn:H; [|done].
    rewrite rmatch_star_dot. apply andb_prop in H as [H _].
    apply Nat.leb_le in H. rewrite length_drop.
    replace (length t - (length t - 11)) with 11 by lia. done. }
  unfold Re.match_here, video_id_pattern.
  set (tail := Re.Cat (Re.Grp (Re.Rep 11 (Re.Cls id_char))) (Re.Star Re.Dot)) in *.
  destruct s as [|a t]; [done|].
  rewrite rmatch_cat. cbn [Re.rmatch candidate].
  destruct (Ascii.eqb_spec a "v") as [->|Hv].
  - change (Ascii.eqb "v" "/") with false. cbv iota.
    destruct t as [|b t']; [done|].
    destruct (Ascii.eqb_spec b "=") as [->|Hb]; [|done].
    rewrite Hid. by destruct (id_at t').
  - destruct (Ascii.eqb_spec a "/") as [->|Hs]; [|done].
    by rewrite Hid.
Qed.

(** [re.search] skips the positions at which the pattern does not match. *)
Lemma search_skip r (pre s : list ascii) :
  (∀ i, i < length pre → Re.match_here r (drop i (pre ++ s)) = None) →
  Re.search r (pre ++ s) = Re.search r s.
Proof.
  induction pre as [|a pre IH]; intros H; [done|].
  pose proof (H 0 ltac:(simpl; lia)) as H0. rewrite drop_0 in H0.
  change ((a :: pre) ++ s) with (a :: (pre ++ s)) in *. cbn [Re.search].
  rewrite H0.
  apply IH. intros i Hi. apply (H (S i)). simpl. lia.
Qed.

Lemma search_here r s g : Re.match_here r s = Some g → Re.search r s = Some g.
Proof. intros H. destruct s; simpl; by rewrite H. Qed.

Lemma id_at_app (vid rest : list ascii) :
  length vid = 11 → forallb id_char vid = true → id_at (vid ++ rest) = Some vid.
Proof.
  intros Hl Hc. unfold id_at.
  rewrite take_app_length' by done. rewrite Hc, length_app, Hl. done.
Qed.

(* ===================================================================== *)
(** * The claims                                                         *)
(* ===================================================================== *)

(** ** Identifier extraction *)



Example extract_short_url :
  extract_video_id "https://youtu.be/dQw4w9WgXcQ" = Some "dQw4w9WgXcQ".
Proof. vm_compute. reflexivity. Qed.

Example extract_no_match :
  extract_video_id "https://www.youtube.com/" = None.
Proof. vm_compute. reflexivity. Qed.


(** ** Missing API key *)

(** C4: with [YOUTUBE_API_KEY] unset, [_run] returns the empty list; the
    only thing it does is log the error: no request is sent, no file is
    touched. *)
Theorem run_without_api_key (net : list response) (vid : string) (w : world) :
  environ w !! "YOUTUBE_API_KEY" = None →
  (_run net vid w).1 = Ok []
  ∧ trace (_run net vid w).2
    = trace w ++ [Log ERROR "YOUTUBE_API_KEY environment variable not set."]
  ∧ fs (_run net vid w).2 = fs w.
Proof.
  intros H. rewrite run_no_key; [done|]. unfold api_key. by rewrite H.
Qed.

Lemma run_without_api_key_witness :
  (_run [Page (snippets 3) None] "dQw4w9WgXcQ" (world_of ∅ ∅)).1 = Ok []
  ∧ trace (_run [Page (snippets 3) None] "dQw4w9WgXcQ" (world_of ∅ ∅)).2
    = [Log ERROR "YOUTUBE_API_KEY environment variable not set."]
  ∧ fs (_run [Page (snippets 3) None] "dQw4w9WgXcQ" (world_of ∅ ∅)).2 = ∅.
Proof.
  apply (run_without_api_key [Page (snippets 3) None] "dQw4w9WgXcQ" (world_of ∅ ∅)).
  reflexivity.
Defined.

(** ** Resume offset *)

(** C2 fails on the code: whatever the files are, the method returns zero
    and logs that [video_id] is not defined. *)
Theorem get_current_comment_count_always_zero (w : world) :
  (get_current_comment_count w).1 = Ok 0
  ∧ trace (get_current_comment_count w).2 = trace w ++ [Log ERROR count_error].
Proof. by rewrite get_current_comment_count_eq. Qed.

(** A Markdown file of three lines is there, and the offset is zero. *)
Example resume_offset_lost :
  let w := world_of with_key
             {["comments_dQw4w9WgXcQ_20260101.md" :=
                 File true ("1. **a**: x (Published at: t)" +:+ String LF EmptyString
                            +:+ "2. **b**: y (Published at: t)" +:+ String LF EmptyString
                            +:+ "3. **c**: z (Published at: t)" +:+ String LF EmptyString)]} in
  (readlines "comments_dQw4w9WgXcQ_20260101.md" w).1
  = Ok ["1. **a**: x (Published at: t)" +:+ String LF EmptyString;
        "2. **b**: y (Published at: t)" +:+ String LF EmptyString;
        "3. **c**: z (Published at: t)" +:+ String LF EmptyString]
  ∧ (get_current_comment_count w).1 = Ok 0.
Proof. vm_compute. done. Qed.

(** ** A run over a complete pagination *)

(** The records fetched, in arrival order, are the batches flushed inside
    the loop followed by the batch left at the [break]. *)
Lemma loop_batches_split ps c :
  concat (loop_batches ps c) ++ pending ps c = c ++ (to_comment <$> concat ps).
Proof.
  revert c. induction ps as [|p ps IH]; intros c.
  - simpl. by rewrite app_nil_r.
  - cbn [loop_batches pending concat]. rewrite fmap_app, app_assoc.
    destruct (100 <=? length (c ++ (to_comment <$> p)))%nat.
    + cbn [concat]. rewrite <- app_assoc, IH. done.
    + apply IH.
Qed.

(** Every batch flushed inside the loop has at least 100 records. *)
Lemma loop_batches_bound ps c :
  (100 * length (loop_batches ps c) + length (pending ps c)
   ≤ length c + length (concat ps))%nat.
Proof.
  revert c. induction ps as [|p ps IH]; intros c.
  - simpl. lia.
  - cbn [loop_batches pending concat].
    destruct (100 <=? length (c ++ (to_comment <$> p)))%nat eqn:H.
    + apply Nat.leb_le in H. rewrite length_app, length_fmap in H.
      specialize (IH []). rewrite length_app. cbn [length] in *. lia.
    + specialize (IH (c ++ (to_comment <$> p))).
      rewrite length_app, length_fmap in IH. rewrite length_app. lia.
Qed.

Lemma pending_snoc ps p c :
  pending (ps ++ [p]) c
  = if (100 <=? length (pending ps c ++ (to_comment <$> p)))%nat
    then [] else pending ps c ++ (to_comment <$> p).
Proof.
  revert c. induction ps as [|q ps IH]; intros c; [done|].
  change ((q :: ps) ++ [p]) with (q :: (ps ++ [p])).
  by rewrite (pending_cons q (ps ++ [p])), (pending_cons q ps), IH.
Qed.

(** When every page before the last is full, each of them is flushed on
    arrival. *)
Lemma loop_batches_full ps p :
  Forall (λ q, length q = 100) ps → (length p ≤ 100)%nat →
  length (loop_batches (ps ++ [p]) []) = length (concat (ps ++ [p])) / 100.
Proof.
  intros Hps Hp. induction Hps as [|q ps Hq Hps IH].
  - cbn [app loop_batches concat]. rewrite app_nil_r, length_fmap.
    destruct (100 <=? length p)%nat eqn:H.
    + apply Nat.leb_le in H. replace (length p) with 100 by lia. done.
    + apply Nat.leb_gt in H. by rewrite Nat.div_small.
  - change ((q :: ps) ++ [p]) with (q :: (ps ++ [p])).
    cbn [app loop_batches concat]. rewrite length_fmap, Hq.
    change (100 <=? 100)%nat with true. cbv iota.
    cbn [length]. rewrite IH, length_app, Hq.
    replace (100 + length (concat (ps ++ [p])))
      with (length (concat (ps ++ [p])) + 1 * 100) by lia.
    rewrite Nat.div_add by lia. lia.
Qed.

Lemma flushes_cons e t :
  flushes (e :: t)
  = match e with Flush b s => (b, s) :: flushes t | _ => flushes t end.
Proof. by destruct e. Qed.

Lemma gets_cons e t :
  gets (e :: t) = match e with Get _ tok _ => tok :: gets t | _ => gets t end.
Proof. by destruct e. Qed.

Lemma started_trace w :
  trace (started w)
  = trace w ++ [Log INFO ("Using API Key: " +:+ default EmptyString (api_key w));
                Log ERROR count_error].
Proof. unfold started. simpl. by rewrite <- app_assoc. Qed.

(** With a key and a complete pagination, [_run] reaches its [return]: it
    returns the batch left at the [break], and its flushes are those of
    the loop and then the final one, of that same batch. *)
Lemma run_pagination pages final vid w key :
  environ w !! "YOUTUBE_API_KEY" = Some key → key ≠ EmptyString →
  Forall (λ r, has_next r = true) pages → is_final final = true →
  ∃ w' evs,
    _run (pages ++ [final]) vid w
    = (Ok (pending (page_items <$> pages ++ [final]) []), w')
    ∧ trace w' = trace w ++ evs
    ∧ (flushes evs).*1
      = loop_batches (page_items <$> pages ++ [final]) []
        ++ [pending (page_items <$> pages ++ [final]) []]
    ∧ length (gets evs) = length pages + 1.
Proof.
  intros Hk Hne Hp Hf.
  destruct (truthy_key w key Hk Hne) as [Ht Hd].
  destruct (fetch_loop_pagination pages final vid (default EmptyString (api_key w)) Hp Hf
              [] None 0 (started w)) as (t & w2 & evs2 & E2 & T2 & F2 & G2 & _).
  destruct (save_comments_any (pending (page_items <$> pages ++ [final]) []) t vid w2)
    as (n & w3 & evs3 & E3 & T3 & F3 & G3 & _).
  set (P := page_items <$> pages ++ [final]) in *.
  set (c := pending P []) in *.
  exists (set_trace (λ tr, tr ++ [Log INFO ("Total " +:+ pretty t +:+ " comments fetched.")]) w3),
    ([Log INFO ("Using API Key: " +:+ default EmptyString (api_key w)); Log ERROR count_error]
     ++ evs2 ++ (Flush c t :: evs3)
     ++ [Log INFO ("Total " +:+ pretty t +:+ " comments fetched.")]).
  split; [exact (run_break _ _ _ _ _ _ _ _ Ht E2 E3)|].
  split; [|split].
  - simpl. rewrite T3, T2, started_trace. rewrite <- !app_assoc. reflexivity.
  - rewrite !flushes_app, !flushes_cons, !fmap_app, fmap_cons, F2, F3.
    reflexivity.
  - rewrite !gets_app, !gets_cons, !length_app, G2, G3. simpl. lia.
Qed.

(** ** Number of flushes *)

(** C1, as the code has it: over a complete pagination the run reaches its
    [return], and [save_comments] is called once for every page after which
    the batch had reached 100 records and once more after the loop. That
    number is at least 1 and at most [total / 100 + 1], and it is
    [total / 100 + 1] when every page before the last has exactly 100
    items and the last has at most 100. *)
Theorem run_flush_count (pages : list response) (final : response)
    (vid : string) (w : world) (key : string) :
  environ w !! "YOUTUBE_API_KEY" = Some key → key ≠ EmptyString →
  Forall (λ r, has_next r = true) pages → is_final final = true →
  ∃ l w' evs,
    _run (pages ++ [final]) vid w = (Ok l, w')
    ∧ trace w' = trace w ++ evs
    ∧ length (flushes evs)
      = length (loop_batches (page_items <$> pages ++ [final]) []) + 1
    ∧ (1 ≤ length (flushes evs))%nat
    ∧ (length (flushes evs) ≤ total_items (pages ++ [final]) / 100 + 1)%nat
    ∧ (Forall (λ r, length (page_items r) = 100) pages →
       (length (page_items final) ≤ 100)%nat →
       length (flushes evs) = total_items (pages ++ [final]) / 100 + 1).
Proof.
  intros Hk Hne Hp Hf.
  destruct (run_pagination pages final vid w key Hk Hne Hp Hf)
    as (w' & evs & E & T & F & _).
  exists (pending (page_items <$> pages ++ [final]) []), w', evs.
  split; [exact E|]. split; [exact T|].
  assert (Hlen : length (flushes evs)
                 = length (loop_batches (page_items <$> pages ++ [final]) []) + 1).
  { rewrite <- (length_fmap fst), F, length_app. reflexivity. }
  split; [exact Hlen|]. split; [lia|]. split.
  - pose proof (loop_batches_bound (page_items <$> pages ++ [final]) []) as Hb.
    simpl in Hb. unfold total_items. rewrite Hlen.
    apply Nat.add_le_mono_r, Nat.div_le_lower_bound; lia.
  - intros Hfull Hlast. rewrite Hlen. unfold total_items.
    rewrite fmap_app. cbn [fmap list_fmap].
    rewrite loop_batches_full; [done| |done].
    by apply Forall_fmap.
Qed.

Lemma run_flush_count_witness :
  ∃ l w' evs,
    _run ([Page (snippets 100) (Some "t")] ++ [Page (snippets 37) None])
      "dQw4w9WgXcQ" (world_of with_key ∅) = (Ok l, w')
    ∧ trace w' = trace (world_of with_key ∅) ++ evs
    ∧ length (flushes evs)
      = length (loop_batches
                  (page_items <$> [Page (snippets 100) (Some "t")]
                                  ++ [Page (snippets 37) None]) []) + 1
    ∧ (1 ≤ length (flushes evs))%nat
    ∧ (length (flushes evs)
       ≤ total_items ([Page (snippets 100) (Some "t")] ++ [Page (snippets 37) None]) / 100 + 1)%nat
    ∧ (Forall (λ r, length (page_items r) = 100) [Page (snippets 100) (Some "t")] →
       (length (page_items (Page (snippets 37) None)) ≤ 100)%nat →
       length (flushes evs)
       = total_items ([Page (snippets 100) (Some "t")] ++ [Page (snippets 37) None]) / 100 + 1).
Proof.
  apply (run_flush_count [Page (snippets 100) (Some "t")] (Page (snippets 37) None)
           "dQw4w9WgXcQ" (world_of with_key ∅) "k").
  - reflexivity.
  - discriminate.
  - repeat constructor.
  - reflexivity.
Defined.

(** C1 as stated fails: one page of 100 items without a token is flushed
    in the loop and the empty batch is flushed again after it, two flushes
    where [ceil(100 / 100)] is one. *)
Lemma one_full_page_two_flushes :
  let net := [Page (snippets 100) None] in
  let r := _run net "dQw4w9WgXcQ" (world_of with_key ∅) in
  r.1 = Ok []
  ∧ (flushes (trace r.2)).*2 = [0; 100]
  ∧ length <$> (flushes (trace r.2)).*1 = [100; 0]
  ∧ ceil_div100 (total_items net) = 1
  ∧ length (flushes (trace r.2)) ≠ ceil_div100 (total_items net).
Proof. vm_compute. repeat split; discriminate. Qed.

(** ** What [_run] returns *)

(** C10, as the code has it: over a complete pagination [_run] returns the
    batch left at the [break], which is also the batch of its last flush.
    The records fetched, in arrival order, are the batches flushed inside
    the loop followed by the returned list. With [c] the batch before the
    last page extended by the records of that page, the returned list is
    empty when [c] has at least 100 records, and is [c] otherwise. *)
Theorem run_returns_last_batch (pages : list response) (final : response)
    (vid : string) (w : world) (key : string) :
  environ w !! "YOUTUBE_API_KEY" = Some key → key ≠ EmptyString →
  Forall (λ r, has_next r = true) pages → is_final final = true →
  let P := page_items <$> pages ++ [final] in
  (_run (pages ++ [final]) vid w).1 = Ok (pending P [])
  ∧ (∃ evs, trace (_run (pages ++ [final]) vid w).2 = trace w ++ evs
            ∧ (flushes evs).*1 = loop_batches P [] ++ [pending P []])
  ∧ concat (loop_batches P []) ++ pending P [] = to_comment <$> concat P
  ∧ pending P []
    = (let c := pending (page_items <$> pages) [] ++ (to_comment <$> page_items final) in
       if (100 <=? length c)%nat then [] else c).
Proof.
  intros Hk Hne Hp Hf P.
  destruct (run_pagination pages final vid w key Hk Hne Hp Hf)
    as (w' & evs & E & T & F & _).
  fold P in E, F. rewrite E. split; [done|]. split; [by exists evs|]. split.
  - apply (loop_batches_split P []).
  - unfold P. rewrite fmap_app. apply pending_snoc.
Qed.

Lemma run_returns_last_batch_witness :
  let pages := [Page (snippets 100) (Some "t")] in
  let final := Page (snippets 37) None in
  let w := world_of with_key ∅ in
  let P := page_items <$> pages ++ [final] in
  (_run (pages ++ [final]) "dQw4w9WgXcQ" w).1 = Ok (pending P [])
  ∧ (∃ evs, trace (_run (pages ++ [final]) "dQw4w9WgXcQ" w).2 = trace w ++ evs
            ∧ (flushes evs).*1 = loop_batches P [] ++ [pending P []])
  ∧ concat (loop_batches P []) ++ pending P [] = to_comment <$> concat P
  ∧ pending P []
    = (let c := pending (page_items <$> pages) [] ++ (to_comment <$> page_items final) in
       if (100 <=? length c)%nat then [] else c).
Proof.
  apply (run_returns_last_batch [Page (snippets 100) (Some "t")]
           (Page (snippets 37) None) "dQw4w9WgXcQ" (world_of with_key ∅) "k").
  - reflexivity.
  - discriminate.
  - repeat constructor.
  - reflexivity.
Defined.

(** C10 as stated fails in its last clause: with a single page of one
    comment the batch is empty when the last page arrives, and the
    returned list is that comment. *)
Lemma empty_batch_before_last_page :
  let final := Page (snippets 1) None in
  pending (page_items <$> []) [] = []
  ∧ (_run ([] ++ [final]) "dQw4w9WgXcQ" (world_of with_key ∅)).1 = Ok (comments_of 1)
  ∧ comments_of 1 ≠ [].
Proof. vm_compute. repeat split; discriminate. Qed.

(** ** Size of a flushed batch *)

Lemma batch_sizes_app e1 e2 :
  batch_sizes_ok e1 → batch_sizes_ok e2 → batch_sizes_ok (e1 ++ e2).
Proof. unfold batch_sizes_ok. rewrite flushes_app. apply Forall_app_2. Qed.

(** The loop on any network whose pages have at most 100 items, entered
    with fewer than 100 records: a flushed batch has fewer than 100 records
    from earlier pages and at most 100 from the page just read. *)
Lemma fetch_loop_batch_bound net vid key :
  Forall (λ r, (length (page_items r) ≤ 100)%nat) net →
  ∀ c tk total w, length c < 100 →
    ∃ evs, trace (fetch_loop net vid key c tk total w).2 = trace w ++ evs
           ∧ batch_sizes_ok evs
           ∧ ∀ c' t, (fetch_loop net vid key c tk total w).1 = Ok (c', t) →
                     length c' < 100.
Proof.
  induction 1 as [|r net Hr Hnet IH]; intros c tk total w Hc.
  - exists [Get vid tk key]. split; [reflexivity|]. split; [constructor|].
    intros c' t H. discriminate H.
  - cbn [fetch_loop]. destruct r as [m|m|k|items tok].
    1-3: (erewrite bind_raise by (apply iteration_failure; reflexivity);
          exists [Get vid tk key]; split; [reflexivity|]; split; [constructor|];
          intros c' t H; discriminate H).
    simpl in Hr.
    destruct (100 <=? length (c ++ (to_comment <$> items)))%nat eqn:Hfull.
    + destruct (save_comments_any (c ++ (to_comment <$> items)) total vid
                  (requested vid tk key w)) as (n & w1 & evs1 & E1 & T1 & F1 & _).
      erewrite bind_ok by (eapply iteration_flush; eauto). cbn [fst snd].
      assert (Hb : batch_sizes_ok
                     (Get vid tk key :: Flush (c ++ (to_comment <$> items)) total :: evs1)).
      { unfold batch_sizes_ok. rewrite !flushes_cons, F1. constructor; [|constructor].
        simpl. rewrite length_app, length_fmap. lia. }
      assert (Ht : trace w1
                   = trace w ++ Get vid tk key :: Flush (c ++ (to_comment <$> items)) total :: evs1).
      { rewrite T1. simpl. by rewrite <- app_assoc. }
      destruct (truthy tok).
      * destruct (IH [] tok n w1) as (evs2 & T2 & B2 & L2); [simpl; lia|].
        eexists. split; [rewrite T2, Ht, <- app_assoc; reflexivity|].
        split; [by apply batch_sizes_app|exact L2].
      * eexists. split; [exact Ht|]. split; [exact Hb|].
        intros c' t [= <- <-]. simpl. lia.
    + erewrite bind_ok by (by apply iteration_keep). cbn [fst snd].
      apply Nat.leb_gt in Hfull.
      destruct (truthy tok).
      * destruct (IH (c ++ (to_comment <$> items)) tok total (requested vid tk key w))
          as (evs2 & T2 & B2 & L2); [done|].
        exists (Get vid tk key :: evs2).
        split; [rewrite T2; simpl; by rewrite <- app_assoc|].
        split; [|exact L2]. unfold batch_sizes_ok. by rewrite flushes_cons.
      * exists [Get vid tk key]. split; [reflexivity|]. split; [constructor|].
        intros c' t [= <- <-]. done.
Qed.

(** C3, as the code has it: when every page has at most 100 items, every
    batch handed to [save_comments] during a run has at most 199 records,
    whatever the responses are. *)
Theorem run_batch_sizes (net : list response) (vid : string) (w : world) :
  Forall (λ r, (length (page_items r) ≤ 100)%nat) net →
  ∃ evs, trace (_run net vid w).2 = trace w ++ evs
         ∧ Forall (λ bs : list comment * nat, (length bs.1 ≤ 199)%nat) (flushes evs).
Proof.
  intros Hnet. destruct (truthy (api_key w)) eqn:Hk.
  2:{ rewrite run_no_key by done. eexists. split; [reflexivity|]. constructor. }
  destruct (fetch_loop_batch_bound net vid (default EmptyString (api_key w)) Hnet
              [] None 0 (started w)) as (evs & T & B & L); [simpl; lia|].
  destruct (fetch_loop net vid (default EmptyString (api_key w)) [] None 0 (started w))
    as [[[c t]|e] w2] eqn:E; cbn [fst snd] in T, L.
  - destruct (save_comments_any c t vid w2) as (n & w3 & evs3 & E3 & T3 & F3 & _).
    rewrite (run_break _ _ _ _ _ _ _ _ Hk E E3).
    exists ([Log INFO ("Using API Key: " +:+ default EmptyString (api_key w)); Log ERROR count_error]
            ++ evs ++ (Flush c t :: evs3)
            ++ [Log INFO ("Total " +:+ pretty t +:+ " comments fetched.")]).
    split.
    + simpl. rewrite T3, T, started_trace, <- !app_assoc. reflexivity.
    + fold (batch_sizes_ok
              ([Log INFO ("Using API Key: " +:+ default EmptyString (api_key w)); Log ERROR count_error]
               ++ evs ++ (Flush c t :: evs3)
               ++ [Log INFO ("Total " +:+ pretty t +:+ " comments fetched.")])).
      apply batch_sizes_app; [constructor|]. apply batch_sizes_app; [done|].
      unfold batch_sizes_ok. rewrite flushes_app, flushes_cons, F3.
      constructor; [|constructor]. simpl. specialize (L c t eq_refl). lia.
  - rewrite (run_abort _ _ _ _ _ Hk E).
    exists ([Log INFO ("Using API Key: " +:+ default EmptyString (api_key w)); Log ERROR count_error]
            ++ evs ++ [Log ERROR (abort_message e)]).
    split.
    + simpl. rewrite T, started_trace, <- !app_assoc. reflexivity.
    + fold (batch_sizes_ok
              ([Log INFO ("Using API Key: " +:+ default EmptyString (api_key w)); Log ERROR count_error]
               ++ evs ++ [Log ERROR (abort_message e)])).
      apply batch_sizes_app; [constructor|]. apply batch_sizes_app; [done|constructor].
Qed.

Lemma run_batch_sizes_witness :
  ∃ evs, trace (_run [Page (snippets 99) (Some "t"); Page (snippets 100) None]
                  "dQw4w9WgXcQ" (world_of with_key ∅)).2
         = trace (world_of with_key ∅) ++ evs
         ∧ Forall (λ bs : list comment * nat, (length bs.1 ≤ 199)%nat) (flushes evs).
Proof.
  apply (run_batch_sizes [Page (snippets 99) (Some "t"); Page (snippets 100) None]
           "dQw4w9WgXcQ" (world_of with_key ∅)).
  repeat constructor; vm_compute; lia.
Defined.

(** The bound is reached: 99 records wait when a page of 100 arrives. *)
Example batch_of_199 :
  length <$> (flushes (trace (_run [Page (snippets 99) (Some "t"); Page (snippets 100) None]
                                "dQw4w9WgXcQ" (world_of with_key ∅)).2)).*1
  = [199; 0].
Proof. vm_compute. reflexivity. Qed.

(** C3 as stated fails: a page of 50 items followed by a page of 60 gives
    a batch of 110 records to [save_comments]. *)
Lemma batch_of_110 :
  let net := [Page (snippets 50) (Some "t"); Page (snippets 60) None] in
  Forall (λ r, (length (page_items r) ≤ 100)%nat) net
  ∧ ∃ b s, (b, s) ∈ flushes (trace (_run net "dQw4w9WgXcQ" (world_of with_key ∅)).2)
           ∧ length b = 110 ∧ ¬ (length b ≤ 100)%nat.
Proof.
  split.
  - repeat constructor; vm_compute; lia.
  - exists (comments_of 50 ++ comments_of 60), 0. split; [|split].
    + vm_compute. left.
    + vm_compute. reflexivity.
    + vm_compute. lia.
Qed.

(** ** Transport failure *)

(** C6, as the code has it: when the request after some pages meets a
    network error or a rejected status, [_run] does not raise and returns
    the empty list. With [w1] the world in which the completed iterations
    left things and [c] the batch then in memory, the run adds only the
    failed request and the error log: the files are as in [w1], and [c] is
    neither written nor returned. *)
Theorem run_transport_failure (pages : list response) (fail : response)
    (rest : list response) (vid : string) (w : world) (key m : string) :
  environ w !! "YOUTUBE_API_KEY" = Some key → key ≠ EmptyString →
  Forall (λ r, has_next r = true) pages →
  fail = ConnectionError m ∨ fail = HTTPError m →
  ∃ c t tk w1,
    iterations pages vid key [] None 0 (started w) = (Ok (c, t, tk), w1)
    ∧ (_run (pages ++ fail :: rest) vid w).1 = Ok []
    ∧ trace (_run (pages ++ fail :: rest) vid w).2
      = trace w1 ++ [Get vid tk key; Log ERROR ("An HTTP error occurred: " +:+ m)]
    ∧ fs (_run (pages ++ fail :: rest) vid w).2 = fs w1.
Proof.
  intros Hk Hne Hp Hfail.
  destruct (truthy_key w key Hk Hne) as [Ht Hd].
  destruct (iterations_pages pages vid key Hp [] None 0 (started w))
    as (c & t & tk & w1 & E & _).
  exists c, t, tk, w1. split; [exact E|].
  assert (Hloop : fetch_loop (pages ++ fail :: rest) vid (default EmptyString (api_key w))
                    [] None 0 (started w)
                  = (Raise (RequestException m), requested vid tk key w1)).
  { rewrite Hd. rewrite (fetch_loop_prefix pages (fail :: rest) vid key Hp _ _ _ _ _ _ _ _ E).
    cbn [fetch_loop].
    erewrite bind_raise; [reflexivity|].
    apply iteration_failure. by destruct Hfail as [-> | ->]. }
  rewrite (run_abort _ _ _ _ _ Ht Hloop). simpl.
  by rewrite <- app_assoc.
Qed.

Lemma run_transport_failure_witness :
  ∃ c t tk w1,
    iterations [Page (snippets 100) (Some "t"); Page (snippets 50) (Some "u")]
      "dQw4w9WgXcQ" "k" [] None 0 (started (world_of with_key ∅)) = (Ok (c, t, tk), w1)
    ∧ (_run ([Page (snippets 100) (Some "t"); Page (snippets 50) (Some "u")]
             ++ HTTPError "403 Client Error: Forbidden" :: [])
         "dQw4w9WgXcQ" (world_of with_key ∅)).1 = Ok []
    ∧ trace (_run ([Page (snippets 100) (Some "t"); Page (snippets 50) (Some "u")]
                   ++ HTTPError "403 Client Error: Forbidden" :: [])
               "dQw4w9WgXcQ" (world_of with_key ∅)).2
      = trace w1 ++ [Get "dQw4w9WgXcQ" tk "k";
                     Log ERROR ("An HTTP error occurred: " +:+ "403 Client Error: Forbidden")]
    ∧ fs (_run ([Page (snippets 100) (Some "t"); Page (snippets 50) (Some "u")]
                ++ HTTPError "403 Client Error: Forbidden" :: [])
            "dQw4w9WgXcQ" (world_of with_key ∅)).2 = fs w1.
Proof.
  apply (run_transport_failure
           [Page (snippets 100) (Some "t"); Page (snippets 50) (Some "u")]
           (HTTPError "403 Client Error: Forbidden") [] "dQw4w9WgXcQ"
           (world_of with_key ∅) "k" "403 Client Error: Forbidden").
  - reflexivity.
  - discriminate.
  - repeat constructor.
  - right. reflexivity.
Defined.

(** C6 as stated fails: after a page of 100 (flushed) and a page of 50
    (in memory), a rejected status makes [_run] return the empty list, which
    is neither the batch in memory, nor what was flushed, nor both. *)
Lemma transport_failure_returns_nothing :
  let pages := [Page (snippets 100) (Some "t"); Page (snippets 50) (Some "u")] in
  let w := world_of with_key ∅ in
  let r := _run (pages ++ [HTTPError "403 Client Error: Forbidden"]) "dQw4w9WgXcQ" w in
  (iterations pages "dQw4w9WgXcQ" "k" [] None 0 (started w)).1
  = Ok (comments_of 50, 100, Some "u")
  ∧ (flushes (trace r.2)).*1 = [comments_of 100]
  ∧ r.1 = Ok []
  ∧ r.1 ≠ Ok (comments_of 50)
  ∧ r.1 ≠ Ok (comments_of 100)
  ∧ r.1 ≠ Ok (comments_of 100 ++ comments_of 50).
Proof. vm_compute. repeat split; discriminate. Qed.

(** ** CSV header *)

(** C7: the header row can be written twice to the same CSV file in one
    run, against the comment [# Write header only once]. When the JSON file
    cannot be opened (here a directory has its name), the first flush
    writes the Markdown lines and the CSV header and rows, fails, and
    leaves the running total at zero; the final flush starts at zero again
    and writes the header a second time, after the 100 rows of the first
    flush. *)
Theorem csv_header_twice :
  let w := world_of with_key {["comments_dQw4w9WgXcQ_20260101.json" := Dir]} in
  let r := _run [Page (snippets 100) (Some "t"); Page (snippets 1) None] "dQw4w9WgXcQ" w in
  let rows := writes_to "comments_dQw4w9WgXcQ_20260101.csv" (trace r.2) in
  r.1 = Ok (comments_of 1)
  ∧ (flushes (trace r.2)).*2 = [0; 0]
  ∧ length rows = 103
  ∧ rows !! 0 = Some (Row csv_header)
  ∧ rows !! 101 = Some (Row csv_header)
  ∧ header_rows rows = 2.
Proof. vm_compute. repeat split. Qed.

(** ** Running total and numbering *)

Lemma enumerate_app {A : Type} (a b : list A) (s : nat) :
  enumerate (a ++ b) s = enumerate a s ++ enumerate b (s + length a).
Proof.
  unfold enumerate, zip. rewrite length_app, seq_app.
  apply zip_with_app. by rewrite length_seq.
Qed.

Lemma writes_to_same {A : Type} p (f : A → item) (l : list A) :
  writes_to p ((λ x, Write p (f x)) <$> l) = f <$> l.
Proof.
  induction l as [|x l IH]; [done|].
  rewrite !fmap_cons. unfold writes_to in *. cbn [omap list_omap].
  rewrite String.eqb_refl. by rewrite IH.
Qed.

Lemma writes_to_other {A : Type} p q (f : A → item) (l : list A) :
  q ≠ p → writes_to p ((λ x, Write q (f x)) <$> l) = [].
Proof.
  intros Hne. apply String.eqb_neq in Hne.
  induction l as [|x l IH]; [done|].
  rewrite !fmap_cons. unfold writes_to in *. cbn [omap list_omap].
  by rewrite Hne.
Qed.

Lemma writes_to_cons_other p q it t :
  q ≠ p → writes_to p (Write q it :: t) = writes_to p t.
Proof.
  intros Hne. apply String.eqb_neq in Hne.
  unfold writes_to. cbn [omap list_omap]. by rewrite Hne.
Qed.

Lemma writes_to_cons_same p it t :
  writes_to p (Write p it :: t) = it :: writes_to p t.
Proof. unfold writes_to. cbn [omap list_omap]. by rewrite String.eqb_refl. Qed.

(** What a flush that meets no failure writes to the Markdown file and to
    the CSV file. *)
Lemma writes_to_markdown b s vid d :
  writes_to (markdown_path vid d) (body_events b s vid d)
  = (λ ic, Text (md_line ic.1 ic.2)) <$> enumerate b (s + 1).
Proof.
  destruct (paths_distinct vid d) as (Nmc & Nmj & Ncj).
  unfold body_events. rewrite !writes_to_app.
  rewrite (writes_to_same _ (λ ic, Text (md_line ic.1 ic.2))).
  rewrite (writes_to_other _ _ (λ ic, Row (csv_row ic.1 ic.2))) by done.
  rewrite writes_to_cons_other by done.
  destruct (s =? 0)%nat; [rewrite writes_to_cons_other by done|];
    by rewrite !app_nil_r.
Qed.

Lemma writes_to_csv b s vid d :
  writes_to (csv_path vid d) (body_events b s vid d)
  = (if (s =? 0)%nat then [Row csv_header] else [])
    ++ ((λ ic, Row (csv_row ic.1 ic.2)) <$> enumerate b (s + 1)).
Proof.
  destruct (paths_distinct vid d) as (Nmc & Nmj & Ncj).
  unfold body_events. rewrite !writes_to_app.
  rewrite (writes_to_same _ (λ ic, Row (csv_row ic.1 ic.2))).
  rewrite (writes_to_other _ _ (λ ic, Text (md_line ic.1 ic.2))) by done.
  rewrite writes_to_cons_other by done.
  destruct (s =? 0)%nat; [rewrite writes_to_cons_same|];
    by rewrite !app_nil_r.
Qed.

(** C8: a flush that can open its three files and whose writes are all
    accepted returns its start index plus the size of its batch. Two such
    flushes in a row, the first from zero, end with the sum of the two
    sizes; what they write to the Markdown file is one line per record,
    [i. **author**: text (Published at: date)], with [i] running over
    1, 2, ... up to that sum, and what they write to the CSV file is the
    header row and then one row [i, author, text, date] per record with the
    same numbers; and each of the two files ends up holding what it held
    before followed by the text of these lines or rows. *)
Theorem save_comments_running_total (vid : string) (w : world)
    (b1 b2 : list comment) :
  outputs_appendable w vid = true →
  flushes_accepted w vid [b1; b2] 0 = true →
  b1 ≠ [] →
  let numbered := zip (seq 1 (length (b1 ++ b2))) (b1 ++ b2) in
  let lines :=
    (λ ic : nat * comment,
       Text (pretty ic.1 +:+ ". **" +:+ author ic.2 +:+ "**: " +:+ text ic.2
             +:+ " (Published at: " +:+ published_at ic.2 +:+ ")"
             +:+ String LF EmptyString)) <$> numbered in
  let rows :=
    Row [CStr "Index"; CStr "Author"; CStr "Comment"; CStr "Published At"]
    :: ((λ ic : nat * comment,
           Row [CInt ic.1; CStr (author ic.2); CStr (text ic.2);
                CStr (published_at ic.2)]) <$> numbered) in
  (∀ b s w0, outputs_appendable w0 vid = true → flush_accepted w0 vid b s = true →
             (save_comments b s vid w0).1 = Ok (s + length b))
  ∧ ∃ w1 w2 evs,
      save_comments b1 0 vid w = (Ok (length b1), w1)
      ∧ save_comments b2 (length b1) vid w1 = (Ok (length b1 + length b2), w2)
      ∧ trace w2 = trace w ++ evs
      ∧ writes_to (markdown_path vid (today w)) evs = lines
      ∧ writes_to (csv_path vid (today w)) evs = rows
      ∧ fs w2 !! markdown_path vid (today w)
        = Some (File true (content w (markdown_path vid (today w)) +:+ text_of w lines))
      ∧ fs w2 !! csv_path vid (today w)
        = Some (File true (content w (csv_path vid (today w)) +:+ text_of w rows)).
Proof.
  intros Ha Hacc Hb1. cbv zeta.
  change (zip (seq 1 (length (b1 ++ b2))) (b1 ++ b2)) with (enumerate (b1 ++ b2) 1).
  change (λ ic : nat * comment,
            Text (pretty ic.1 +:+ ". **" +:+ author ic.2 +:+ "**: " +:+ text ic.2
                  +:+ " (Published at: " +:+ published_at ic.2 +:+ ")"
                  +:+ String LF EmptyString))
    with (λ ic : nat * comment, Text (md_line ic.1 ic.2)).
  change (λ ic : nat * comment,
            Row [CInt ic.1; CStr (author ic.2); CStr (text ic.2);
                 CStr (published_at ic.2)])
    with (λ ic : nat * comment, Row (csv_row ic.1 ic.2)).
  change (Row [CStr "Index"; CStr "Author"; CStr "Comment"; CStr "Published At"])
    with (Row csv_header).
  split.
  - intros b s w0 Ha0 Hacc0.
    destruct (save_comments_ok b s vid w0 Ha0 Hacc0) as (w' & E & _). by rewrite E.
  - cbn [flushes_accepted] in Hacc.
    apply andb_prop in Hacc as [A1 A2]. apply andb_prop in A2 as [A2 _].
    destruct (save_comments_ok b1 0 vid w Ha A1)
      as (w1 & E1 & (T1 & S1 & Ha1 & _) & Fm1 & Fc1 & _).
    assert (Hday : today w1 = today w) by apply S1.
    rewrite <- (flush_accepted_same w w1) in A2 by exact S1.
    destruct (save_comments_ok b2 (length b1) vid w1 Ha1 A2)
      as (w2 & E2 & (T2 & _) & Fm2 & Fc2 & _).
    rewrite Hday in T2, Fm2, Fc2.
    assert (Hnz : (length b1 =? 0)%nat = false).
    { apply Nat.eqb_neq. destruct b1; [done|simpl; lia]. }
    assert (Hmd : (λ ic : nat * comment, Text (md_line ic.1 ic.2)) <$> enumerate (b1 ++ b2) 1
                  = md_items b1 0 ++ md_items b2 (length b1)).
    { unfold md_items. rewrite enumerate_app, fmap_app.
      by rewrite (Nat.add_comm 1 (length b1)). }
    assert (Hcs : (λ ic : nat * comment, Row (csv_row ic.1 ic.2)) <$> enumerate (b1 ++ b2) 1
                  = csv_items b1 0 ++ csv_items b2 (length b1)).
    { unfold csv_items. rewrite enumerate_app, fmap_app.
      by rewrite (Nat.add_comm 1 (length b1)). }
    exists w1, w2,
      ((Flush b1 0 :: body_events b1 0 vid (today w))
       ++ (Flush b2 (length b1) :: body_events b2 (length b1) vid (today w))).
    split; [exact E1|]. split; [exact E2|].
    split; [by rewrite T2, T1, <- app_assoc|].
    split; [|split; [|split]].
    + rewrite writes_to_app. unfold writes_to at 1 2. cbn [omap list_omap].
      fold (writes_to (markdown_path vid (today w)) (body_events b1 0 vid (today w))).
      fold (writes_to (markdown_path vid (today w))
              (body_events b2 (length b1) vid (today w))).
      by rewrite !writes_to_markdown, Hmd.
    + rewrite writes_to_app. unfold writes_to at 1 2. cbn [omap list_omap].
      fold (writes_to (csv_path vid (today w)) (body_events b1 0 vid (today w))).
      fold (writes_to (csv_path vid (today w))
              (body_events b2 (length b1) vid (today w))).
      by rewrite !writes_to_csv, Hnz, Hcs.
    + rewrite Fm2, Hmd, text_of_app. unfold content at 1. rewrite Fm1.
      rewrite (text_of_same w w1) by exact S1. by rewrite string_app_assoc.
    + rewrite Fc2. unfold content at 1. rewrite Fc1.
      rewrite (text_of_same w w1) by exact S1.
      unfold header_items. rewrite Hnz. simpl app. rewrite string_app_assoc.
      rewrite <- text_of_app. by rewrite Hcs.
Qed.

(** The example of the claim: 100 records and then 37, into an empty
    directory. *)
Lemma save_comments_running_total_witness :
  ∃ w1 w2,
    save_comments (comments_of 100) 0 "dQw4w9WgXcQ" (world_of with_key ∅) = (Ok 100, w1)
    ∧ save_comments (comments_of 37) 100 "dQw4w9WgXcQ" w1 = (Ok 137, w2)
    ∧ length (writes_to "comments_dQw4w9WgXcQ_20260101.md" (trace w2)) = 137
    ∧ writes_to "comments_dQw4w9WgXcQ_20260101.md" (trace w2) !! 0
      = Some (Text ("1. **author**: 0 (Published at: 2026-01-01T00:00:00Z)"
                    +:+ String LF EmptyString))
    ∧ writes_to "comments_dQw4w9WgXcQ_20260101.md" (trace w2) !! 136
      = Some (Text ("137. **author**: 36 (Published at: 2026-01-01T00:00:00Z)"
                    +:+ String LF EmptyString))
    ∧ length (writes_to "comments_dQw4w9WgXcQ_20260101.csv" (trace w2)) = 138
    ∧ writes_to "comments_dQw4w9WgXcQ_20260101.csv" (trace w2) !! 0
      = Some (Row [CStr "Index"; CStr "Author"; CStr "Comment"; CStr "Published At"])
    ∧ writes_to "comments_dQw4w9WgXcQ_20260101.csv" (trace w2) !! 137
      = Some (Row [CInt 137; CStr "author"; CStr "36"; CStr "2026-01-01T00:00:00Z"]).
Proof.
  destruct (save_comments_running_total "dQw4w9WgXcQ" (world_of with_key ∅)
              (comments_of 100) (comments_of 37))
    as (_ & w1 & w2 & evs & E1 & E2 & T & Hm & Hc & _);
    [vm_compute; reflexivity|vm_compute; reflexivity|discriminate|].
  change (trace (world_of with_key ∅) ++ evs) with evs in T.
  exists w1, w2. split; [exact E1|]. split; [exact E2|].
  rewrite T.
  change (writes_to "comments_dQw4w9WgXcQ_20260101.md" evs)
    with (writes_to (markdown_path "dQw4w9WgXcQ" (today (world_of with_key ∅))) evs).
  change (writes_to "comments_dQw4w9WgXcQ_20260101.csv" evs)
    with (writes_to (csv_path "dQw4w9WgXcQ" (today (world_of with_key ∅))) evs).
  rewrite Hm, Hc. vm_compute. repeat split.
Defined.

(** ** Write failure during a flush *)

(** C9: when a flush meets a failure, a file that cannot be opened or a
    write that is refused, the [try] block raises an exception [e], which
    for files that can be opened is the one of the first refused write;
    [save_comments] does not raise: it keeps what was written before the
    failure, logs [Comments could not be saved: ] followed by the text of
    [e], and returns the start index it was given. Inside the loop of
    [_run] the flush of a full batch that fails in this way is followed by
    the next request, with the batch emptied and the running total
    unchanged. *)
Theorem save_comments_write_failure (b : list comment) (s : nat)
    (vid : string) (w : world) :
  outputs_appendable w vid && flush_accepted w vid b s = false →
  (∃ e w1,
     save_comments_body b s vid (set_trace (λ t, t ++ [Flush b s]) w) = (Raise e, w1)
     ∧ (outputs_appendable w vid = true → flush_error w vid b s = Some e)
     ∧ save_comments b s vid w
       = (Ok s, set_trace (λ t, t ++ [Log ERROR ("Comments could not be saved: "
                                                 +:+ exn_str e)]) w1))
  ∧ (∀ items tok net key c tk,
       b = c ++ (to_comment <$> items) → (100 ≤ length b)%nat → truthy tok = true →
       ∃ e w',
         fetch_loop (Page items tok :: net) vid key c tk s w
         = fetch_loop net vid key [] tok s w'
         ∧ last (trace w')
           = Some (Log ERROR ("Comments could not be saved: " +:+ exn_str e))
         ∧ (outputs_appendable w vid = true → flush_error w vid b s = Some e)).
Proof.
  intros Ha. split.
  - destruct (save_comments_fail b s vid w Ha) as (e & w1 & E & Eb & He).
    exists e, w1. auto.
  - intros items tok net key c tk -> Hlen Htok.
    assert (S : same_setting w (requested vid tk key w)) by done.
    assert (Ha' : outputs_appendable (requested vid tk key w) vid
                  && flush_accepted (requested vid tk key w) vid
                       (c ++ (to_comment <$> items)) s = false).
    { rewrite (flush_accepted_same w) by exact S. exact Ha. }
    destruct (save_comments_fail (c ++ (to_comment <$> items)) s vid
                (requested vid tk key w) Ha') as (e & w' & E & _ & He).
    eexists e, _. split; [|split].
    + cbn [fetch_loop].
      erewrite bind_ok
        by (eapply iteration_flush; [by apply Nat.leb_le|exact E]).
      cbn [fst snd]. by rewrite Htok.
    + simpl. by rewrite last_snoc.
    + intros Ho. rewrite <- (He Ho). symmetry. by apply flush_error_same.
Qed.

(** A batch whose second comment cannot be encoded, into an empty
    directory: the three files can be opened, the first Markdown line is
    written, the second is refused; nothing reaches the CSV file and the
    JSON file. *)
Lemma save_comments_write_failure_witness :
  ∃ w',
    save_comments (comments_of 1 ++ [surrogate_comment]) 0 "dQw4w9WgXcQ"
      (world_of with_key ∅) = (Ok 0, w')
    ∧ trace w'
      = [Flush (comments_of 1 ++ [surrogate_comment]) 0;
         Write "comments_dQw4w9WgXcQ_20260101.md"
           (Text ("1. **author**: 0 (Published at: 2026-01-01T00:00:00Z)"
                  +:+ String LF EmptyString));
         Log ERROR ("Comments could not be saved: "
                    +:+ "'utf-8' codec can't encode character: surrogates not allowed")]
    ∧ fs w' !! "comments_dQw4w9WgXcQ_20260101.md"
      = Some (File true ("1. **author**: 0 (Published at: 2026-01-01T00:00:00Z)"
                         +:+ String LF EmptyString))
    ∧ fs w' !! "comments_dQw4w9WgXcQ_20260101.csv" = None
    ∧ fs w' !! "comments_dQw4w9WgXcQ_20260101.json" = None.
Proof.
  destruct (save_comments_write_failure (comments_of 1 ++ [surrogate_comment]) 0
              "dQw4w9WgXcQ" (world_of with_key ∅))
    as ((e & w1 & Eb & He & E) & _); [vm_compute; reflexivity|].
  eexists. split; [exact E|].
  assert (H1 : w1 = (save_comments_body (comments_of 1 ++ [surrogate_comment]) 0
                       "dQw4w9WgXcQ"
                       (set_trace (λ t, t ++ [Flush (comments_of 1 ++ [surrogate_comment]) 0])
                          (world_of with_key ∅))).2)
    by (by rewrite Eb).
  assert (H2 : Some e = Some (UnicodeEncodeError
                 "'utf-8' codec can't encode character: surrogates not allowed")).
  { rewrite <- He by (vm_compute; reflexivity). vm_compute. reflexivity. }
  injection H2 as ->. rewrite H1. vm_compute. repeat split.
Defined.

(** One comment of a full page cannot be encoded: the first flush fails,
    the total stays at zero, the second page is asked for, and the final
    flush numbers its 37 records from 1 and writes the header, while the
    100 comments of the first page are in no file but for the Markdown
    lines before the failure. *)
Example write_failure_run_goes_on :
  let w := world_of with_key ∅ in
  let r := _run [Page (snippets 60 ++ surrogate_snippet :: snippets 39) (Some "t");
                 Page (snippets 37) None] "dQw4w9WgXcQ" w in
  r.1 = Ok (comments_of 37)
  ∧ gets (trace r.2) = [None; Some "t"]
  ∧ (flushes (trace r.2)).*2 = [0; 0]
  ∧ length (writes_to "comments_dQw4w9WgXcQ_20260101.md" (trace r.2)) = 60 + 37
  ∧ length (writes_to "comments_dQw4w9WgXcQ_20260101.csv" (trace r.2)) = 1 + 37
  ∧ last (trace r.2) = Some (Log INFO "Total 0 comments fetched.").
Proof. vm_compute. repeat split. Qed.

(** A video identifier with a [/] names a file in a directory that is
    not there: the flush cannot open the Markdown file, logs the error of
    [open] and creates nothing. *)
Example missing_directory_flush_fails :
  let r := save_comments (comments_of 1) 0 "a/b" (world_of with_key ∅) in
  r.1 = Ok 0
  ∧ trace r.2
    = [Flush (comments_of 1) 0;
       Log ERROR ("Comments could not be saved: "
                  +:+ "[Errno 2] No such file or directory: 'comments_a/b_20260101.md'")]
  ∧ fs r.2 = ∅.
Proof. vm_compute. repeat split. Qed.

(* ===================================================================== *)
(** * Further properties                                                 *)
(* ===================================================================== *)

(** ** What [extract_video_id] returns *)

Lemma string_of_list_ascii_app (a b : list ascii) :
  string_of_list_ascii (a ++ b) = string_of_list_ascii a +:+ string_of_list_ascii b.
Proof. induction a as [|c a IH]; simpl; [done|]. by rewrite IH. Qed.

Lemma search_some r s g :
  Re.search r s = Some g →
  ∃ pre s', s = pre ++ s' ∧ Re.match_here r s' = Some g
            ∧ ∀ i, i < length pre → Re.match_here r (drop i s) = None.
Proof.
  induction s as [|a s IH]; cbn [Re.search].
  - destruct (Re.match_here r []) eqn:E; [|done]. intros [= ->].
    exists [], []. split; [done|]. split; [done|]. simpl. lia.
  - destruct (Re.match_here r (a :: s)) eqn:E.
    + intros [= ->]. exists [], (a :: s). split; [done|]. split; [done|]. simpl. lia.
    + intros H. destruct (IH H) as (pre & s' & -> & Hm & Hpre).
      exists (a :: pre), s'. split; [done|]. split; [done|].
      intros [|i] Hi; [done|]. apply Hpre. simpl in Hi. lia.
Qed.

Lemma search_none r s :
  Re.search r s = None → ∀ pre s', s = pre ++ s' → Re.match_here r s' = None.
Proof.
  induction s as [|a s IH]; cbn [Re.search].
  - destruct (Re.match_here r []) eqn:E; [done|]. intros _ pre s' H.
    symmetry in H. apply app_nil in H as [-> ->]. done.
  - destruct (Re.match_here r (a :: s)) eqn:E; [done|].
    intros H [|b pre] s' Hs; simpl in Hs.
    + by subst.
    + injection Hs as -> ->. by apply (IH H pre).
Qed.

Lemma id_at_some t v :
  id_at t = Some v →
  length v = 11 ∧ forallb id_char v = true ∧ ∃ post, t = v ++ post.
Proof.
  unfold id_at.
  destruct ((11 <=? length t)%nat && forallb id_char (take 11 t)) eqn:H; [|done].
  intros [= <-]. apply andb_prop in H as [Hl Hc]. apply Nat.leb_le in Hl.
  split; [rewrite length_take; lia|]. split; [done|].
  exists (drop 11 t). by rewrite take_drop.
Qed.

Lemma candidate_some s v :
  candidate s = Some v →
  length v = 11 ∧ forallb id_char v = true
  ∧ ∃ sep post, (sep = ["v"; "="]%char ∨ sep = ["/"]%char) ∧ s = sep ++ v ++ post.
Proof.
  destruct s as [|a t]; [done|]. cbn [candidate].
  destruct (Ascii.eqb_spec a "v") as [->|_].
  - destruct t as [|b t']; [done|].
    destruct (Ascii.eqb_spec b "=") as [->|_]; [|done].
    intros H. destruct (id_at_some _ _ H) as (Hl & Hc & post & ->).
    split; [done|]. split; [done|]. exists ["v"; "="]%char, post. auto.
  - destruct (Ascii.eqb_spec a "/") as [->|_]; [|done].
    intros H. destruct (id_at_some _ _ H) as (Hl & Hc & post & ->).
    split; [done|]. split; [done|]. exists ["/"]%char, post. auto.
Qed.

(** Where a result of [extract_video_id] comes from. *)
Lemma extract_video_id_some url vid :
  extract_video_id url = Some vid →
  ∃ pre s', list_ascii_of_string url = pre ++ s'
            ∧ candidate s' = Some (list_ascii_of_string vid)
            ∧ ∀ i, i < length pre → candidate (drop i (list_ascii_of_string url)) = None.
Proof.
  unfold extract_video_id.
  destruct (Re.search video_id_pattern (list_ascii_of_string url)) as [g|] eqn:E; [|done].
  destruct (search_some _ _ _ E) as (pre & s' & Hs & Hm & Hpre).
  rewrite match_here_pattern in Hm.
  destruct (candidate s') as [v|] eqn:Hc; [|done]. injection Hm as <-.
  simpl. intros [= <-]. exists pre, s'. split; [done|].
  rewrite list_ascii_of_string_of_list_ascii. split; [done|].
  intros i Hi. specialize (Hpre i Hi). rewrite match_here_pattern in Hpre.
  by destruct (candidate (drop i (list_ascii_of_string url))).
Qed.

(** X1: whenever [extract_video_id] returns an identifier, it has exactly
    eleven characters, all of them in [[0-9A-Za-z_-]], and it stands in the
    URL immediately after a [v=] or a [/]. *)
Theorem extract_video_id_shape (url vid : string) :
  extract_video_id url = Some vid →
  String.length vid = 11
  ∧ forallb id_char (list_ascii_of_string vid) = true
  ∧ ∃ pre sep post, (sep = "v=" ∨ sep = "/") ∧ url = pre +:+ sep +:+ vid +:+ post.
Proof.
  intros H. destruct (extract_video_id_some url vid H) as (pre & s' & Hu & Hc & _).
  destruct (candidate_some _ _ Hc) as (Hl & Hid & sep & post & Hsep & ->).
  rewrite list_ascii_of_string_length in Hl. split; [done|]. split; [done|].
  exists (string_of_list_ascii pre), (string_of_list_ascii sep),
    (string_of_list_ascii post).
  split; [destruct Hsep as [-> | ->]; auto|].
  rewrite <- (string_of_list_ascii_of_string url), Hu.
  rewrite !string_of_list_ascii_app. by rewrite string_of_list_ascii_of_string.
Qed.

Lemma extract_video_id_shape_witness :
  String.length "dQw4w9WgXcQ" = 11
  ∧ forallb id_char (list_ascii_of_string "dQw4w9WgXcQ") = true
  ∧ ∃ pre sep post, (sep = "v=" ∨ sep = "/")
      ∧ "https://www.youtube.com/embed/dQw4w9WgXcQ?rel=0"
        = pre +:+ sep +:+ "dQw4w9WgXcQ" +:+ post.
Proof.
  apply (extract_video_id_shape "https://www.youtube.com/embed/dQw4w9WgXcQ?rel=0"
           "dQw4w9WgXcQ").
  vm_compute. reflexivity.
Defined.

Lemma extract_video_id_none_segment (url : string) :
  extract_video_id url = None
  ↔ ¬ ∃ pre sep vid post,
        (sep = "v=" ∨ sep = "/") ∧ String.length vid = 11
        ∧ forallb id_char (list_ascii_of_string vid) = true
        ∧ url = pre +:+ sep +:+ vid +:+ post.
Proof.
  split.
  - intros Hnone (pre & sep & vid & post & Hsep & Hl & Hc & ->).
    unfold extract_video_id in Hnone.
    destruct (Re.search video_id_pattern
                (list_ascii_of_string (pre +:+ sep +:+ vid +:+ post))) as [g|] eqn:E.
    + destruct (search_some _ _ _ E) as (p & s' & _ & Hm & _).
      rewrite match_here_pattern in Hm.
      destruct (candidate s'); [|done]. injection Hm as <-. done.
    + pose proof (search_none _ _ E (list_ascii_of_string pre)
                    (list_ascii_of_string (sep +:+ vid +:+ post))
                    (list_ascii_of_string_app _ _)) as Hm.
      rewrite match_here_pattern in Hm.
      rewrite <- list_ascii_of_string_length in Hl.
      destruct Hsep as [-> | ->]; rewrite !list_ascii_of_string_app in Hm;
        simpl in Hm; by rewrite id_at_app in Hm.
  - intros Hno. destruct (extract_video_id url) as [vid|] eqn:E; [|done].
    destruct Hno. destruct (extract_video_id_some url vid E) as (pre & s' & Hu & Hc & _).
    destruct (candidate_some _ _ Hc) as (Hl & Hid & sep & post & Hsep & ->).
    exists (string_of_list_ascii pre), (string_of_list_ascii sep), vid,
      (string_of_list_ascii post).
    split; [destruct Hsep as [-> | ->]; auto|].
    rewrite list_ascii_of_string_length in Hl. split; [done|]. split; [done|].
    rewrite <- (string_of_list_ascii_of_string url), Hu.
    rewrite !string_of_list_ascii_app. by rewrite string_of_list_ascii_of_string.
Qed.

(** X2: [extract_video_id] gives no identifier exactly when the URL has no
    [v=] or [/] immediately followed by eleven characters of
    [[0-9A-Za-z_-]]. *)
Theorem extract_video_id_none_iff (url : string) :
  extract_video_id url = None
  ↔ ¬ ∃ pre sep vid post,
        (sep = "v=" ∨ sep = "/") ∧ String.length vid = 11
        ∧ forallb id_char (list_ascii_of_string vid) = true
        ∧ url = pre +:+ sep +:+ vid +:+ post.
Proof. apply extract_video_id_none_segment. Qed.

Lemma id_at_stable s t : (11 ≤ length s)%nat → id_at (s ++ t) = id_at s.
Proof.
  intros H. unfold id_at. rewrite take_app_le by done.
  rewrite length_app.
  replace (11 <=? length s + length t)%nat with true
    by (symmetry; apply Nat.leb_le; lia).
  replace (11 <=? length s)%nat with true by (symmetry; by apply Nat.leb_le).
  done.
Qed.

Lemma candidate_stable s t : (13 ≤ length s)%nat → candidate (s ++ t) = candidate s.
Proof.
  intros H. destruct s as [|a [|b s]]; simpl in H; try lia.
  change ((a :: b :: s) ++ t) with (a :: b :: (s ++ t)). cbn [candidate].
  rewrite (id_at_stable s t) by lia.
  change (b :: (s ++ t)) with ((b :: s) ++ t).
  rewrite (id_at_stable (b :: s) t) by (simpl; lia). done.
Qed.

Lemma candidate_app_some s t v : candidate s = Some v → candidate (s ++ t) = Some v.
Proof.
  intros H. destruct (candidate_some s v H) as (Hl & _ & sep & post & Hsep & ->).
  rewrite <- !app_assoc in *.
  rewrite <- H. destruct Hsep as [-> | ->]; simpl.
  - rewrite app_assoc. apply id_at_stable. rewrite length_app. lia.
  - rewrite app_assoc. apply id_at_stable. rewrite length_app. lia.
Qed.

(** X3: what follows the identifier does not matter: when a URL gives an
    identifier, the URL with anything appended gives the same one. *)
Theorem extract_video_id_suffix (url extra vid : string) :
  extract_video_id url = Some vid →
  extract_video_id (url +:+ extra) = Some vid.
Proof.
  intros H. destruct (extract_video_id_some url vid H) as (pre & s' & Hu & Hc & Hpre).
  assert (Hlen : (12 ≤ length s')%nat).
  { destruct (candidate_some _ _ Hc) as (Hl & _ & sep & post & Hsep & ->).
    rewrite !length_app, Hl. destruct Hsep as [-> | ->]; simpl; lia. }
  unfold extract_video_id.
  rewrite list_ascii_of_string_app, Hu, <- app_assoc, search_skip.
  - erewrite search_here
      by (rewrite match_here_pattern, (candidate_app_some _ _ _ Hc); reflexivity).
    simpl. by rewrite string_of_list_ascii_of_string.
  - intros i Hi. rewrite match_here_pattern.
    rewrite app_assoc, drop_app_le by (rewrite length_app; lia).
    rewrite candidate_stable by (rewrite length_drop, length_app; lia).
    rewrite <- Hu, Hpre by done. done.
Qed.

Lemma extract_video_id_suffix_witness :
  extract_video_id ("https://youtu.be/dQw4w9WgXcQ" +:+ "?si=abcdefghijklmnop&t=42")
  = Some "dQw4w9WgXcQ".
Proof.
  apply (extract_video_id_suffix "https://youtu.be/dQw4w9WgXcQ"
           "?si=abcdefghijklmnop&t=42" "dQw4w9WgXcQ").
  vm_compute. reflexivity.
Defined.

(** ** What a flush touches *)

Lemma confined_ret {A : Type} paths (a : A) : confined paths (mret a).
Proof. by intros w q Hq. Qed.

Lemma confined_bind {A B : Type} paths (m : M A) (f : A → M B) :
  confined paths m → (∀ a, confined paths (f a)) → confined paths (m ≫= f).
Proof.
  intros Hm Hf w q Hq. specialize (Hm w q Hq).
  unfold mbind, M_bind. destruct (m w) as [[a|e] w1]; simpl in *; [|done].
  by rewrite (Hf a w1 q Hq).
Qed.

Lemma confined_try_except {A : Type} paths (m : M A) (h : exn → M A) :
  confined paths m → (∀ e, confined paths (h e)) → confined paths (try_except m h).
Proof.
  intros Hm Hh w q Hq. specialize (Hm w q Hq).
  unfold try_except. destruct (m w) as [[a|e] w1]; simpl in *; [done|].
  by rewrite (Hh e w1 q Hq).
Qed.

Lemma confined_emit paths e : confined paths (emit e).
Proof. by intros w q Hq. Qed.

Lemma confined_open_append paths p : p ∈ paths → confined paths (open_append p).
Proof.
  intros Hp w q Hq. unfold open_append.
  destruct (fs w !! p) as [[[|] d|]|]; [| | |destruct (can_create w p)];
    simpl; try done.
  apply lookup_insert_ne. by intros ->.
Qed.

Lemma confined_write paths p it : p ∈ paths → confined paths (write p it).
Proof.
  intros Hp w q Hq. unfold write.
  destruct (fs w !! p) as [[[|] d|]|];
    [destruct (write_error w p it) as [[partial e]|]| | |];
    simpl; try done; apply lookup_insert_ne; by intros ->.
Qed.

Lemma confined_for_each {A : Type} paths (l : list A) (f : A → M unit) :
  (∀ x, confined paths (f x)) → confined paths (for_each l f).
Proof.
  intros Hf. induction l as [|x l IH]; simpl.
  - apply confined_ret.
  - apply confined_bind; auto.
Qed.

Lemma save_comments_body_confined b s vid w q :
  q ∉ [markdown_path vid (today w); csv_path vid (today w); json_path vid (today w)] →
  fs (save_comments_body b s vid w).2 !! q = fs w !! q.
Proof.
  intros Hq. unfold save_comments_body.
  erewrite bind_ok by reflexivity. cbv zeta.
  change ("comments_" +:+ vid +:+ "_" +:+ today w +:+ ".md")
    with (markdown_path vid (today w)).
  change ("comments_" +:+ vid +:+ "_" +:+ today w +:+ ".csv")
    with (csv_path vid (today w)).
  change ("comments_" +:+ vid +:+ "_" +:+ today w +:+ ".json")
    with (json_path vid (today w)).
  match goal with |- fs (?m w).2 !! q = _ =>
    assert (Hc : confined [markdown_path vid (today w); csv_path vid (today w);
                           json_path vid (today w)] m) end.
  { repeat (first [ apply confined_bind; [|intros ?]
                  | apply confined_open_append; rewrite !elem_of_cons; by auto
                  | apply confined_write; rewrite !elem_of_cons; by auto
                  | apply confined_for_each; intros ?
                  | apply confined_ret
                  | destruct (s =? 0)%nat ]). }
  exact (Hc w q Hq).
Qed.

Lemma requests_nil_of_gets t : gets t = [] → requests t = [].
Proof.
  induction t as [|e t IH]; [done|]. destruct e; simpl; try exact IH. done.
Qed.

(** X4: whatever the state of the files, [save_comments] does not raise
    and returns either the start index or the start index plus the size of
    the batch; it sends no request, calls no further flush, leaves the
    environment alone, and leaves every file but its three output files as
    it was. *)
Theorem save_comments_frame (b : list comment) (s : nat) (vid : string) (w : world) :
  ∃ n w' evs,
    save_comments b s vid w = (Ok n, w')
    ∧ (n = s ∨ n = s + length b)
    ∧ trace w' = trace w ++ Flush b s :: evs
    ∧ requests evs = [] ∧ flushes evs = []
    ∧ environ w' = environ w
    ∧ ∀ q, q ≠ markdown_path vid (today w) → q ≠ csv_path vid (today w) →
           q ≠ json_path vid (today w) → fs w' !! q = fs w !! q.
Proof.
  destruct (save_comments_any b s vid w) as (n & w' & evs & E & T & F & G & S).
  exists n, w', evs. split; [exact E|]. split; [|split; [exact T|]].
  - destruct (outputs_appendable w vid && flush_accepted w vid b s) eqn:Ha.
    + apply andb_prop in Ha as [Ha Hw].
      destruct (save_comments_ok b s vid w Ha Hw) as (w1 & E1 & _).
      rewrite E in E1. injection E1 as -> _. by right.
    + destruct (save_comments_fail b s vid w Ha) as (m & w1 & E1 & _).
      rewrite E in E1. injection E1 as -> _. by left.
  - split; [by apply requests_nil_of_gets|]. split; [exact F|].
    split; [apply S|].
    intros q Q1 Q2 Q3.
    assert (Hq : q ∉ [markdown_path vid (today w); csv_path vid (today w);
                      json_path vid (today w)])
      by (rewrite !elem_of_cons, elem_of_nil; tauto).
    pose proof (f_equal (λ r, fs r.2 !! q) E) as Hfs. simpl in Hfs. rewrite <- Hfs.
    unfold save_comments. erewrite bind_ok by reflexivity.
    unfold try_except.
    pose proof (save_comments_body_confined b s vid
                  (set_trace (λ t, t ++ [Flush b s]) w) q Hq) as Hb.
    destruct (save_comments_body b s vid (set_trace (λ t, t ++ [Flush b s]) w))
      as [[a|e] w1]; simpl in *; exact Hb.
Qed.

(** ** What a flush leaves in the files *)

(** X5: a flush that can open its three files and whose writes are all
    accepted only appends to them: after it, each file holds what it held
    before followed by the text of what the flush wrote, the numbered lines
    in the Markdown file, the header (when the start index is zero) and the
    rows in the CSV file, one object in the JSON file; and the flush
    returns the start index plus the size of the batch. *)
Theorem save_comments_appends (b : list comment) (s : nat) (vid : string) (w : world) :
  outputs_appendable w vid = true →
  flush_accepted w vid b s = true →
  ∃ w', save_comments b s vid w = (Ok (s + length b), w')
    ∧ fs w' !! markdown_path vid (today w)
      = Some (File true (content w (markdown_path vid (today w))
                         +:+ text_of w (md_items b s)))
    ∧ fs w' !! csv_path vid (today w)
      = Some (File true (content w (csv_path vid (today w))
                         +:+ text_of w (header_items s ++ csv_items b s)))
    ∧ fs w' !! json_path vid (today w)
      = Some (File true (content w (json_path vid (today w))
                         +:+ text_of w [Json b])).
Proof.
  intros H A. destruct (save_comments_ok b s vid w H A) as (w' & E & _ & F).
  exists w'. auto.
Qed.

(** Two comments from the start index 5, into a directory where the CSV
    file of an earlier flush is: the Markdown file is created with the
    lines 6 and 7, and two rows, without a header, follow what the CSV file
    held. *)
Lemma save_comments_appends_witness :
  ∃ w', save_comments (comments_of 2) 5 "dQw4w9WgXcQ"
          (world_of with_key {["comments_dQw4w9WgXcQ_20260101.csv" := File true "old,"]})
        = (Ok 7, w')
    ∧ fs w' !! "comments_dQw4w9WgXcQ_20260101.md"
      = Some (File true ("6. **author**: 0 (Published at: 2026-01-01T00:00:00Z)"
                         +:+ String LF EmptyString
                         +:+ "7. **author**: 1 (Published at: 2026-01-01T00:00:00Z)"
                         +:+ String LF EmptyString))
    ∧ fs w' !! "comments_dQw4w9WgXcQ_20260101.csv" = Some (File true "old,<row><row>")
    ∧ fs w' !! "comments_dQw4w9WgXcQ_20260101.json" = Some (File true "<json>").
Proof.
  destruct (save_comments_appends (comments_of 2) 5 "dQw4w9WgXcQ"
              (world_of with_key {["comments_dQw4w9WgXcQ_20260101.csv" := File true "old,"]}))
    as (w' & E & Hm & Hc & Hj); [vm_compute; reflexivity..|].
  exists w'. split; [exact E|].
  split; [refine (eq_trans Hm _); vm_compute; reflexivity|].
  split; [refine (eq_trans Hc _); vm_compute; reflexivity|].
  refine (eq_trans Hj _); vm_compute; reflexivity.
Defined.

(** X6: a flush is not all-or-nothing. When the Markdown file can be
    opened and accepts the lines of the batch, and the CSV file cannot be
    opened, the numbered lines of the batch are appended to the Markdown
    file all the same, and the flush then logs the error and returns the
    start index unchanged. *)
Theorem save_comments_partial (b : list comment) (s : nat) (vid : string) (w : world) :
  appendable w (markdown_path vid (today w)) = true →
  accepts w (markdown_path vid (today w)) (md_items b s) = true →
  appendable w (csv_path vid (today w)) = false →
  ∃ w' msg,
    save_comments b s vid w = (Ok s, w')
    ∧ fs w' !! markdown_path vid (today w)
      = Some (File true (content w (markdown_path vid (today w))
                         +:+ text_of w (md_items b s)))
    ∧ trace w'
      = trace w ++ Flush b s
          :: ((λ ic, Write (markdown_path vid (today w)) (Text (md_line ic.1 ic.2)))
                <$> enumerate b (s + 1))
          ++ [Log ERROR ("Comments could not be saved: " +:+ msg)].
Proof.
  intros Hm Am Hc.
  destruct (paths_distinct vid (today w)) as (Nmc & Nmj & Ncj).
  set (md := markdown_path vid (today w)) in *.
  set (cs := csv_path vid (today w)) in *.
  set (js := json_path vid (today w)) in *.
  set (w0 := set_trace (λ t, t ++ [Flush b s]) w).
  destruct (markdown_stage md b s
    (open_append cs ;;
     (if (s =? 0)%nat then write cs (Row csv_header) else mret ()) ;;
     for_each (enumerate b (s + 1)) (λ ic, write cs (Row (csv_row ic.1 ic.2))) ;;
     open_append js ;; write js (Json b) ;; mret (s + length b)) w0 Hm Am)
    as (w1 & E1 & T1 & C1).
  assert (Hc1 : appendable w1 cs = false)
    by (rewrite (touched_appendable _ _ _ _ _ T1); auto).
  destruct (open_append_fail cs w1 Hc1) as [m Ef].
  exists (set_trace (λ t, t ++ [Log ERROR ("Comments could not be saved: " +:+ m)]) w1), m.
  split; [|split].
  - unfold save_comments. erewrite bind_ok by reflexivity.
    unfold try_except. fold w0. unfold save_comments_body.
    erewrite bind_ok by reflexivity. cbv zeta.
    change (today w0) with (today w).
    change ("comments_" +:+ vid +:+ "_" +:+ today w +:+ ".md") with md.
    change ("comments_" +:+ vid +:+ "_" +:+ today w +:+ ".csv") with cs.
    change ("comments_" +:+ vid +:+ "_" +:+ today w +:+ ".json") with js.
    rewrite E1. erewrite bind_raise by exact Ef. reflexivity.
  - simpl. rewrite (touched_content _ _ _ _ T1), C1. reflexivity.
  - simpl. destruct T1 as (-> & _). simpl. by rewrite <- !app_assoc.
Qed.

Lemma save_comments_partial_witness :
  ∃ w' msg,
    save_comments (comments_of 2) 0 "dQw4w9WgXcQ"
      (world_of with_key {["comments_dQw4w9WgXcQ_20260101.csv" := Dir]}) = (Ok 0, w')
    ∧ fs w' !! "comments_dQw4w9WgXcQ_20260101.md"
      = Some (File true ("1. **author**: 0 (Published at: 2026-01-01T00:00:00Z)"
                         +:+ String LF EmptyString
                         +:+ "2. **author**: 1 (Published at: 2026-01-01T00:00:00Z)"
                         +:+ String LF EmptyString))
    ∧ trace w'
      = Flush (comments_of 2) 0
          :: ((λ ic, Write "comments_dQw4w9WgXcQ_20260101.md" (Text (md_line ic.1 ic.2)))
                <$> enumerate (comments_of 2) 1)
          ++ [Log ERROR ("Comments could not be saved: " +:+ msg)].
Proof.
  destruct (save_comments_partial (comments_of 2) 0 "dQw4w9WgXcQ"
              (world_of with_key {["comments_dQw4w9WgXcQ_20260101.csv" := Dir]}))
    as (w' & msg & E & Hm & Ht); [vm_compute; reflexivity..|].
  exists w', msg. split; [exact E|].
  split; [refine (eq_trans Hm _); vm_compute; reflexivity|exact Ht].
Defined.

(** X18: a line that is refused stops the flush in the middle of the
    Markdown file. When the Markdown file can be opened, the lines of the
    records before [c] are accepted and the line of [c] is refused with the
    exception [e] after [partial] has reached the file, the flush leaves
    these lines and [partial] in the Markdown file, writes nothing to the
    CSV file and the JSON file, logs [e] and returns the start index: none
    of the records of the batch is counted, those after [c] are in no
    file. *)
Theorem save_comments_refused_line (b1 : list comment) (c : comment)
    (b2 : list comment) (s : nat) (vid : string) (w : world)
    (partial : string) (e : exn) :
  appendable w (markdown_path vid (today w)) = true →
  accepts w (markdown_path vid (today w)) (md_items b1 s) = true →
  write_error w (markdown_path vid (today w)) (Text (md_line (s + 1 + length b1) c))
  = Some (partial, e) →
  ∃ w', save_comments (b1 ++ c :: b2) s vid w = (Ok s, w')
    ∧ trace w'
      = trace w ++ Flush (b1 ++ c :: b2) s
          :: (Write (markdown_path vid (today w)) <$> md_items b1 s)
          ++ [Log ERROR ("Comments could not be saved: " +:+ exn_str e)]
    ∧ fs w' !! markdown_path vid (today w)
      = Some (File true (content w (markdown_path vid (today w))
                         +:+ text_of w (md_items b1 s) +:+ partial))
    ∧ fs w' !! csv_path vid (today w) = fs w !! csv_path vid (today w)
    ∧ fs w' !! json_path vid (today w) = fs w !! json_path vid (today w).
Proof.
  intros Hm Am He.
  destruct (paths_distinct vid (today w)) as (Nmc & Nmj & Ncj).
  set (md := markdown_path vid (today w)) in *.
  set (cs := csv_path vid (today w)) in *.
  set (js := json_path vid (today w)) in *.
  set (w0 := set_trace (λ t, t ++ [Flush (b1 ++ c :: b2) s]) w).
  destruct (open_append_content md w0 Hm) as (w1 & E1 & T1 & C1).
  assert (Am1 : accepts w1 md ((λ ic : nat * comment, Text (md_line ic.1 ic.2))
                                 <$> enumerate b1 (s + 1)) = true)
    by (rewrite (accepts_same w0 w1) by apply T1; exact Am).
  assert (He1 : write_error w1 md
                  (Text (md_line (s + 1 + length b1, c).1 (s + 1 + length b1, c).2))
                = Some (partial, e)).
  { destruct T1 as (_ & (_ & _ & _ & _ & _ & Hw) & _). rewrite Hw. exact He. }
  destruct (for_each_write_stops md (λ ic : nat * comment, Text (md_line ic.1 ic.2))
              (enumerate b1 (s + 1)) (s + 1 + length b1, c)
              (enumerate b2 (S (s + 1 + length b1))) w1 _ partial e C1 Am1 He1)
    as (w2 & E2 & T2 & S2 & C2 & Q2).
  exists (set_trace (λ t, t ++ [Log ERROR ("Comments could not be saved: " +:+ exn_str e)]) w2).
  split; [|split; [|split; [|split]]].
  - unfold save_comments. erewrite bind_ok by reflexivity.
    unfold try_except. fold w0. unfold save_comments_body.
    erewrite bind_ok by reflexivity. cbv zeta.
    change (today w0) with (today w).
    change ("comments_" +:+ vid +:+ "_" +:+ today w +:+ ".md") with md.
    erewrite bind_ok by exact E1.
    rewrite enumerate_app.
    change (enumerate (c :: b2) (s + 1 + length b1))
      with ((s + 1 + length b1, c) :: enumerate b2 (S (s + 1 + length b1))).
    erewrite bind_raise by exact E2. reflexivity.
  - simpl. rewrite T2. destruct T1 as (-> & _). simpl.
    rewrite app_nil_r, <- !app_assoc. unfold md_items.
    by rewrite <- list_fmap_compose.
  - simpl. rewrite C2. rewrite (text_of_same w0 w1) by apply T1. reflexivity.
  - simpl. rewrite Q2 by auto. by apply (touched_content_other _ _ _ _ _ T1).
  - simpl. rewrite Q2 by auto. by apply (touched_content_other _ _ _ _ _ T1).
Qed.

(** The second of four comments cannot be encoded. *)
Lemma save_comments_refused_line_witness :
  ∃ w', save_comments (comments_of 1 ++ surrogate_comment :: comments_of 2) 0
          "dQw4w9WgXcQ" (world_of with_key ∅) = (Ok 0, w')
    ∧ trace w'
      = [Flush (comments_of 1 ++ surrogate_comment :: comments_of 2) 0;
         Write "comments_dQw4w9WgXcQ_20260101.md"
           (Text ("1. **author**: 0 (Published at: 2026-01-01T00:00:00Z)"
                  +:+ String LF EmptyString));
         Log ERROR ("Comments could not be saved: "
                    +:+ "'utf-8' codec can't encode character: surrogates not allowed")]
    ∧ fs w' !! "comments_dQw4w9WgXcQ_20260101.md"
      = Some (File true ("1. **author**: 0 (Published at: 2026-01-01T00:00:00Z)"
                         +:+ String LF EmptyString))
    ∧ fs w' !! "comments_dQw4w9WgXcQ_20260101.csv" = None
    ∧ fs w' !! "comments_dQw4w9WgXcQ_20260101.json" = None.
Proof.
  destruct (save_comments_refused_line (comments_of 1) surrogate_comment (comments_of 2)
              0 "dQw4w9WgXcQ" (world_of with_key ∅) EmptyString
              (UnicodeEncodeError
                 "'utf-8' codec can't encode character: surrogates not allowed"))
    as (w' & E & T & Fm & Fc & Fj); [vm_compute; reflexivity..|].
  exists w'. split; [exact E|].
  split; [refine (eq_trans T _); vm_compute; reflexivity|].
  split; [refine (eq_trans Fm _); vm_compute; reflexivity|].
  split; [refine (eq_trans Fc _); vm_compute; reflexivity|].
  refine (eq_trans Fj _); vm_compute; reflexivity.
Defined.

(** ** What a completed run writes *)

Lemma writes_to_cons_flush p b s t : writes_to p (Flush b s :: t) = writes_to p t.
Proof. reflexivity. Qed.

Lemma writes_to_cons_get p v tok k t : writes_to p (Get v tok k :: t) = writes_to p t.
Proof. reflexivity. Qed.

Lemma writes_to_cons_log p l m t : writes_to p (Log l m :: t) = writes_to p t.
Proof. reflexivity. Qed.

Lemma writes_to_json b s vid d :
  writes_to (json_path vid d) (body_events b s vid d) = [Json b].
Proof.
  destruct (paths_distinct vid d) as (Nmc & Nmj & Ncj).
  unfold body_events. rewrite !writes_to_app.
  rewrite (writes_to_other _ _ (λ ic, Text (md_line ic.1 ic.2))) by done.
  rewrite (writes_to_other _ _ (λ ic, Row (csv_row ic.1 ic.2))) by done.
  rewrite writes_to_cons_same.
  destruct (s =? 0)%nat; [rewrite writes_to_cons_other by done|]; reflexivity.
Qed.

Lemma flush_events_app bs1 bs2 s vid d :
  flush_events (bs1 ++ bs2) s vid d
  = flush_events bs1 s vid d ++ flush_events bs2 (s + length (concat bs1)) vid d.
Proof.
  revert s. induction bs1 as [|b bs1 IH]; intros s.
  - simpl. by rewrite Nat.add_0_r.
  - change ((b :: bs1) ++ bs2) with (b :: (bs1 ++ bs2)). cbn [flush_events concat].
    rewrite IH, length_app, Nat.add_assoc, <- !app_assoc. reflexivity.
Qed.

Lemma writes_to_markdown_flushes bs s vid d :
  writes_to (markdown_path vid d) (flush_events bs s vid d) = md_items (concat bs) s.
Proof.
  revert s. induction bs as [|b bs IH]; intros s; [done|].
  cbn [flush_events concat]. rewrite <- app_comm_cons, writes_to_cons_flush.
  rewrite writes_to_app, writes_to_markdown, IH.
  unfold md_items. rewrite enumerate_app, fmap_app.
  by replace (s + length b + 1) with (s + 1 + length b) by lia.
Qed.

Lemma writes_to_json_flushes bs s vid d :
  writes_to (json_path vid d) (flush_events bs s vid d) = Json <$> bs.
Proof.
  revert s. induction bs as [|b bs IH]; intros s; [done|].
  cbn [flush_events]. rewrite <- app_comm_cons, writes_to_cons_flush.
  by rewrite writes_to_app, writes_to_json, IH.
Qed.

Lemma writes_to_csv_flushes_later bs s vid d :
  0 < s →
  writes_to (csv_path vid d) (flush_events bs s vid d) = csv_items (concat bs) s.
Proof.
  revert s. induction bs as [|b bs IH]; intros s Hs; [done|].
  cbn [flush_events concat]. rewrite <- app_comm_cons, writes_to_cons_flush.
  rewrite writes_to_app, writes_to_csv, IH by lia.
  replace (s =? 0)%nat with false by (symmetry; apply Nat.eqb_neq; lia).
  unfold csv_items. rewrite enumerate_app, fmap_app.
  by replace (s + length b + 1) with (s + 1 + length b) by lia.
Qed.

Lemma writes_to_csv_flushes_first b bs vid d :
  b ≠ [] ∨ bs = [] →
  writes_to (csv_path vid d) (flush_events (b :: bs) 0 vid d)
  = Row csv_header :: csv_items (concat (b :: bs)) 0.
Proof.
  intros H. cbn [flush_events concat].
  rewrite <- app_comm_cons, writes_to_cons_flush, writes_to_app, writes_to_csv.
  change (0 =? 0)%nat with true. cbv iota.
  unfold csv_items. rewrite enumerate_app, fmap_app.
  change ([Row csv_header] ++ ?l) with (Row csv_header :: l).
  rewrite <- app_comm_cons. f_equal. f_equal.
  destruct H as [H | ->].
  - rewrite writes_to_csv_flushes_later by (destruct b; [done|simpl; lia]).
    unfold csv_items. by replace (0 + length b + 1) with (0 + 1 + length b) by lia.
  - reflexivity.
Qed.

Lemma loop_batches_large ps c :
  Forall (λ b : list comment, (100 ≤ length b)%nat) (loop_batches ps c).
Proof.
  revert c. induction ps as [|p ps IH]; intros c; [constructor|].
  cbn [loop_batches].
  destruct (100 <=? length (c ++ (to_comment <$> p)))%nat eqn:H; [|apply IH].
  constructor; [by apply Nat.leb_le|apply IH].
Qed.

Lemma flushes_accepted_app w vid bs1 bs2 s :
  flushes_accepted w vid (bs1 ++ bs2) s
  = flushes_accepted w vid bs1 s
    && flushes_accepted w vid bs2 (s + length (concat bs1)).
Proof.
  revert s. induction bs1 as [|b bs1 IH]; intros s.
  - simpl. by rewrite Nat.add_0_r.
  - change ((b :: bs1) ++ bs2) with (b :: (bs1 ++ bs2)). cbn [flushes_accepted concat].
    by rewrite IH, length_app, Nat.add_assoc, andb_assoc.
Qed.

(** One iteration when the files can be opened and the writes are
    accepted: the flush, if there is one, meets no failure. *)
Lemma iteration_events items tok vid key c tk total w :
  outputs_appendable w vid = true →
  flushes_accepted w vid (loop_batches [items] c) total = true →
  ∃ w', iteration (Page items tok) vid key c tk total w
        = (Ok (pending [items] c,
               total + length (concat (loop_batches [items] c)), tok), w')
        ∧ trace w'
          = trace w ++ Get vid tk key
              :: flush_events (loop_batches [items] c) total vid (today w)
        ∧ outputs_appendable w' vid = true
        ∧ same_setting w w'.
Proof.
  intros Ha Hacc. cbn [pending loop_batches] in Hacc |- *.
  destruct (100 <=? length (c ++ (to_comment <$> items)))%nat eqn:H.
  - cbn [flushes_accepted] in Hacc. apply andb_prop in Hacc as [Hacc _].
    assert (Hacc' : flush_accepted (requested vid tk key w) vid
                      (c ++ (to_comment <$> items)) total = true)
      by (rewrite (flush_accepted_same w) by done; exact Hacc).
    destruct (save_comments_ok (c ++ (to_comment <$> items)) total vid
                (requested vid tk key w) Ha Hacc') as (w' & E & (T & S & Ha' & _) & _).
    exists w'. split; [|split; [|split]].
    + cbn [concat]. rewrite app_nil_r. by eapply iteration_flush.
    + rewrite T. cbn [flush_events]. rewrite app_nil_r.
      unfold requested. cbn [trace set_trace today]. by rewrite <- app_assoc.
    + exact Ha'.
    + exact S.
  - exists (requested vid tk key w). split; [|done].
    simpl. rewrite Nat.add_0_r. by apply iteration_keep.
Qed.

Lemma fetch_loop_events pages final vid key :
  Forall (λ r, has_next r = true) pages → is_final final = true →
  ∀ c tk total w, outputs_appendable w vid = true →
    flushes_accepted w vid (loop_batches (page_items <$> pages ++ [final]) c) total = true →
    ∃ w' evs,
      fetch_loop (pages ++ [final]) vid key c tk total w
      = (Ok (pending (page_items <$> pages ++ [final]) c,
             total + length (concat (loop_batches (page_items <$> pages ++ [final]) c))),
         w')
      ∧ trace w' = trace w ++ evs
      ∧ outputs_appendable w' vid = true
      ∧ same_setting w w'
      ∧ ∀ p, writes_to p evs
             = writes_to p (flush_events (loop_batches (page_items <$> pages ++ [final]) c)
                              total vid (today w)).
Proof.
  intros Hp Hf. induction Hp as [|r pages Hr Hp IH]; intros c tk total w Ha Hacc.
  - destruct final as [| | |items tok]; try discriminate. simpl in Hf.
    destruct (iteration_events items tok vid key c tk total w Ha Hacc)
      as (w' & E & T & Ha' & Hd).
    eexists w', _. split; [|split; [exact T|split; [exact Ha'|split; [exact Hd|]]]].
    + simpl app. cbn [fetch_loop]. erewrite bind_ok by exact E. cbn [fst snd].
      apply negb_true_iff in Hf. by rewrite Hf.
    + intros p. apply writes_to_cons_get.
  - destruct r as [| | |items tok]; try discriminate. simpl in Hr.
    change ((Page items tok :: pages) ++ [final])
      with (Page items tok :: (pages ++ [final])) in Hacc |- *.
    rewrite fmap_cons in Hacc |- *. cbn [page_items] in Hacc |- *.
    rewrite loop_batches_cons in Hacc. rewrite loop_batches_cons, (pending_cons items).
    rewrite flushes_accepted_app in Hacc. apply andb_prop in Hacc as [Hacc1 Hacc2].
    destruct (iteration_events items tok vid key c tk total w Ha Hacc1)
      as (w1 & E1 & T1 & Ha1 & Hd1).
    rewrite <- (flushes_accepted_same w w1) in Hacc2 by exact Hd1.
    destruct (IH (pending [items] c) tok
                (total + length (concat (loop_batches [items] c))) w1 Ha1 Hacc2)
      as (w2 & evs2 & E2 & T2 & Ha2 & Hd2 & W2).
    exists w2,
      ((Get vid tk key :: flush_events (loop_batches [items] c) total vid (today w))
       ++ evs2).
    split; [|split; [|split; [|split]]].
    + cbn [fetch_loop]. erewrite bind_ok by exact E1. cbn [fst snd].
      rewrite Hr, E2. rewrite concat_app, length_app, Nat.add_assoc. reflexivity.
    + rewrite T2, T1. by rewrite <- app_assoc.
    + exact Ha2.
    + eapply same_setting_trans; eauto.
    + intros p. rewrite writes_to_app, writes_to_cons_get.
      rewrite W2. replace (today w1) with (today w) by (symmetry; apply Hd1).
      rewrite flush_events_app, writes_to_app. reflexivity.
Qed.

(** A run with a key over a complete pagination, when the output files can
    be opened and the writes are accepted: what it returns, what it logs
    last, and what it writes. *)
Lemma run_complete pages final vid w key :
  environ w !! "YOUTUBE_API_KEY" = Some key → key ≠ EmptyString →
  Forall (λ r, has_next r = true) pages → is_final final = true →
  outputs_appendable w vid = true →
  flushes_accepted w vid
    (loop_batches (page_items <$> pages ++ [final]) []
     ++ [pending (page_items <$> pages ++ [final]) []]) 0 = true →
  ∃ w3 evs,
    _run (pages ++ [final]) vid w
    = (Ok (pending (page_items <$> pages ++ [final]) []),
       set_trace (λ tr, tr ++ [Log INFO ("Total "
          +:+ pretty (length (concat (loop_batches (page_items <$> pages ++ [final]) [])))
          +:+ " comments fetched.")]) w3)
    ∧ trace w3 = trace w ++ evs
    ∧ ∀ p, writes_to p evs
           = writes_to p (flush_events
                            (loop_batches (page_items <$> pages ++ [final]) []
                             ++ [pending (page_items <$> pages ++ [final]) []])
                            0 vid (today w)).
Proof.
  intros Hk Hne Hp Hf Ha Hacc.
  destruct (truthy_key w key Hk Hne) as [Ht Hd].
  rewrite flushes_accepted_app in Hacc. apply andb_prop in Hacc as [Hacc1 Hacc2].
  cbn [flushes_accepted] in Hacc2. apply andb_prop in Hacc2 as [Hacc2 _].
  assert (Hacc1' : flushes_accepted (started w) vid
                     (loop_batches (page_items <$> pages ++ [final]) []) 0 = true)
    by (rewrite (flushes_accepted_same w) by done; exact Hacc1).
  destruct (fetch_loop_events pages final vid (default EmptyString (api_key w)) Hp Hf
              [] None 0 (started w) Ha Hacc1')
    as (w2 & evs2 & E2 & T2 & Ha2 & Hd2 & W2).
  set (P := page_items <$> pages ++ [final]) in *.
  simpl in E2, Hacc2.
  assert (S2 : same_setting w w2) by (eapply same_setting_trans; [|exact Hd2]; done).
  rewrite <- (flush_accepted_same w w2) in Hacc2 by exact S2.
  destruct (save_comments_ok (pending P []) (length (concat (loop_batches P []))) vid w2
              Ha2 Hacc2)
    as (w3 & E3 & (T3 & _) & _).
  exists w3,
    ([Log INFO ("Using API Key: " +:+ default EmptyString (api_key w));
      Log ERROR count_error]
     ++ evs2
     ++ (Flush (pending P []) (length (concat (loop_batches P [])))
           :: body_events (pending P []) (length (concat (loop_batches P []))) vid (today w2))).
  split; [exact (run_break _ _ _ _ _ _ _ _ Ht E2 E3)|]. split.
  - rewrite T3, T2, started_trace, <- !app_assoc. reflexivity.
  - intros p. rewrite !writes_to_app, !writes_to_cons_log, W2.
    change (writes_to p []) with (@nil item). rewrite app_nil_l.
    rewrite flush_events_app, writes_to_app. simpl plus.
    change (today (started w)) with (today w) in *.
    replace (today w2) with (today w) by (symmetry; apply S2).
    cbn [flush_events]. by rewrite app_nil_r.
Qed.

(** What a completed run writes to each of its three files. *)
Lemma run_writes (pages : list response) (final : response)
    (vid : string) (w : world) (key : string) :
  environ w !! "YOUTUBE_API_KEY" = Some key → key ≠ EmptyString →
  Forall (λ r, has_next r = true) pages → is_final final = true →
  outputs_appendable w vid = true →
  flushes_accepted w vid
    (loop_batches (page_items <$> pages ++ [final]) []
     ++ [pending (page_items <$> pages ++ [final]) []]) 0 = true →
  let P := page_items <$> pages ++ [final] in
  let all := to_comment <$> concat P in
  ∃ evs, trace (_run (pages ++ [final]) vid w).2 = trace w ++ evs
    ∧ writes_to (markdown_path vid (today w)) evs = md_items all 0
    ∧ writes_to (csv_path vid (today w)) evs = Row csv_header :: csv_items all 0
    ∧ writes_to (json_path vid (today w)) evs
      = Json <$> (loop_batches P [] ++ [pending P []]).
Proof.
  intros Hk Hne Hp Hf Ha Hacc P all.
  destruct (run_complete pages final vid w key Hk Hne Hp Hf Ha Hacc)
    as (w3 & evs & E & T & W).
  fold P in E, W.
  assert (Hall : concat (loop_batches P [] ++ [pending P []]) = all).
  { rewrite concat_app. simpl. rewrite app_nil_r. apply (loop_batches_split P []). }
  exists (evs ++ [Log INFO ("Total " +:+ pretty (length (concat (loop_batches P [])))
                            +:+ " comments fetched.")]).
  split; [rewrite E; simpl; by rewrite T, <- app_assoc|].
  rewrite !writes_to_app, !W.
  change (writes_to _ [Log _ _]) with (@nil item) at 1 2 3. rewrite !app_nil_r.
  split; [|split].
  - by rewrite writes_to_markdown_flushes, Hall.
  - rewrite <- Hall.
    destruct (loop_batches P []) as [|b bs] eqn:Hlb.
    + simpl app. apply writes_to_csv_flushes_first. by right.
    + change ((b :: bs) ++ [pending P []]) with (b :: (bs ++ [pending P []])).
      apply writes_to_csv_flushes_first. left.
      pose proof (loop_batches_large P []) as Hl. rewrite Hlb in Hl.
      apply Forall_cons in Hl as [Hl _]. intros ->. simpl in Hl. lia.
  - apply writes_to_json_flushes.
Qed.



(** X8: the total that a run logs at its end, when the output files can
    be opened and every write of every flush is accepted, is the number of
    comments flushed inside the loop: the comments of the final flush,
    which are those the run returns, are not counted. *)
Theorem run_logged_total (pages : list response) (final : response)
    (vid : string) (w : world) (key : string) :
  environ w !! "YOUTUBE_API_KEY" = Some key → key ≠ EmptyString →
  Forall (λ r, has_next r = true) pages → is_final final = true →
  outputs_appendable w vid = true →
  flushes_accepted w vid
    (loop_batches (page_items <$> pages ++ [final]) []
     ++ [pending (page_items <$> pages ++ [final]) []]) 0 = true →
  ∃ l w' k,
    _run (pages ++ [final]) vid w = (Ok l, w')
    ∧ last (trace w') = Some (Log INFO ("Total " +:+ pretty k +:+ " comments fetched."))
    ∧ k + length l = total_items (pages ++ [final]).
Proof.
  intros Hk Hne Hp Hf Ha Hacc.
  destruct (run_complete pages final vid w key Hk Hne Hp Hf Ha Hacc)
    as (w3 & evs & E & _).
  eexists _, _, _. split; [exact E|]. split; [simpl; by rewrite last_snoc|].
  unfold total_items.
  rewrite <- length_app, (loop_batches_split (page_items <$> pages ++ [final]) []).
  simpl. by rewrite length_fmap.
Qed.

Lemma run_logged_total_witness :
  ∃ l w' k,
    _run ([Page (snippets 100) (Some "t")] ++ [Page (snippets 37) None])
      "dQw4w9WgXcQ" (world_of with_key ∅) = (Ok l, w')
    ∧ last (trace w') = Some (Log INFO ("Total " +:+ pretty k +:+ " comments fetched."))
    ∧ k + length l
      = total_items ([Page (snippets 100) (Some "t")] ++ [Page (snippets 37) None]).
Proof.
  apply (run_logged_total [Page (snippets 100) (Some "t")] (Page (snippets 37) None)
           "dQw4w9WgXcQ" (world_of with_key ∅) "k").
  - reflexivity.
  - discriminate.
  - repeat constructor.
  - reflexivity.
  - vm_compute. reflexivity.
  - vm_compute. reflexivity.
Defined.

(** 137 comments: the log says 100. *)
Example logged_total_100_of_137 :
  last (trace (_run [Page (snippets 100) (Some "t"); Page (snippets 37) None]
                 "dQw4w9WgXcQ" (world_of with_key ∅)).2)
  = Some (Log INFO "Total 100 comments fetched.").
Proof. vm_compute. reflexivity. Qed.

Lemma header_rows_csv_items b s : header_rows (csv_items b s) = 0.
Proof.
  unfold header_rows, csv_items.
  induction (enumerate b (s + 1)) as [|ic l IH]; [done|].
  rewrite fmap_cons, filter_cons_False by discriminate. exact IH.
Qed.

(** X17: in a run with a key over a complete pagination, when the three
    output files can be opened and every write of every flush is accepted,
    the header row is written to the CSV file exactly once, before every
    other row of the run. *)
Theorem run_header_once (pages : list response) (final : response)
    (vid : string) (w : world) (key : string) :
  environ w !! "YOUTUBE_API_KEY" = Some key → key ≠ EmptyString →
  Forall (λ r, has_next r = true) pages → is_final final = true →
  outputs_appendable w vid = true →
  flushes_accepted w vid
    (loop_batches (page_items <$> pages ++ [final]) []
     ++ [pending (page_items <$> pages ++ [final]) []]) 0 = true →
  ∃ evs, trace (_run (pages ++ [final]) vid w).2 = trace w ++ evs
    ∧ header_rows (writes_to (csv_path vid (today w)) evs) = 1
    ∧ writes_to (csv_path vid (today w)) evs !! 0 = Some (Row csv_header)
    ∧ length (writes_to (csv_path vid (today w)) evs)
      = 1 + total_items (pages ++ [final]).
Proof.
  intros Hk Hne Hp Hf Ha Hacc.
  destruct (run_writes pages final vid w key Hk Hne Hp Hf Ha Hacc)
    as (evs & T & _ & Hc & _).
  exists evs. split; [exact T|]. rewrite Hc. split; [|split; [done|]].
  - unfold header_rows. rewrite filter_cons_True by done.
    simpl. f_equal. apply header_rows_csv_items.
  - simpl. f_equal. unfold csv_items, enumerate, total_items.
    rewrite length_fmap, length_zip, length_seq, Nat.min_id, length_fmap.
    by rewrite length_concat, <- list_fmap_compose.
Qed.

Lemma run_header_once_witness :
  let pages := [Page (snippets 100) (Some "t")] in
  let final := Page (snippets 37) None in
  let w := world_of with_key ∅ in
  ∃ evs, trace (_run (pages ++ [final]) "dQw4w9WgXcQ" w).2 = trace w ++ evs
    ∧ header_rows (writes_to (csv_path "dQw4w9WgXcQ" (today w)) evs) = 1
    ∧ writes_to (csv_path "dQw4w9WgXcQ" (today w)) evs !! 0 = Some (Row csv_header)
    ∧ length (writes_to (csv_path "dQw4w9WgXcQ" (today w)) evs)
      = 1 + total_items (pages ++ [final]).
Proof.
  apply (run_header_once [Page (snippets 100) (Some "t")] (Page (snippets 37) None)
           "dQw4w9WgXcQ" (world_of with_key ∅) "k").
  - reflexivity.
  - discriminate.
  - repeat constructor.
  - reflexivity.
  - vm_compute. reflexivity.
  - vm_compute. reflexivity.
Defined.

(** ** More on [_run] *)

(** X9: an API key that is set to the empty string counts as missing:
    [_run] logs the configuration error and returns the empty list, without
    a request and without touching a file. *)
Theorem run_with_empty_api_key (net : list response) (vid : string) (w : world) :
  environ w !! "YOUTUBE_API_KEY" = Some EmptyString →
  _run net vid w
  = (Ok [], set_trace (λ t, t ++ [Log ERROR "YOUTUBE_API_KEY environment variable not set."]) w).
Proof. intros H. apply run_no_key. unfold api_key. by rewrite H. Qed.

Lemma run_with_empty_api_key_witness :
  _run [Page (snippets 3) None] "dQw4w9WgXcQ"
    (world_of {["YOUTUBE_API_KEY" := EmptyString]} ∅)
  = (Ok [], set_trace (λ t, t ++ [Log ERROR "YOUTUBE_API_KEY environment variable not set."])
              (world_of {["YOUTUBE_API_KEY" := EmptyString]} ∅)).
Proof.
  apply (run_with_empty_api_key [Page (snippets 3) None] "dQw4w9WgXcQ"
           (world_of {["YOUTUBE_API_KEY" := EmptyString]} ∅)).
  reflexivity.
Defined.

(** X10: a response whose body lacks a key that the loop reads ends the
    run through the general [except] clause: [_run] returns the empty list
    and logs an unexpected error naming the key; the files stay as the
    completed iterations left them, and the batch in memory is dropped. *)
Theorem run_bad_body (pages rest : list response) (vid : string) (w : world)
    (key k : string) :
  environ w !! "YOUTUBE_API_KEY" = Some key → key ≠ EmptyString →
  Forall (λ r, has_next r = true) pages →
  ∃ c t tk w1,
    iterations pages vid key [] None 0 (started w) = (Ok (c, t, tk), w1)
    ∧ (_run (pages ++ BadBody k :: rest) vid w).1 = Ok []
    ∧ trace (_run (pages ++ BadBody k :: rest) vid w).2
      = trace w1 ++ [Get vid tk key;
                     Log ERROR ("An unexpected error occurred: '" +:+ k +:+ "'")]
    ∧ fs (_run (pages ++ BadBody k :: rest) vid w).2 = fs w1.
Proof.
  intros Hk Hne Hp.
  destruct (truthy_key w key Hk Hne) as [Ht Hd].
  destruct (iterations_pages pages vid key Hp [] None 0 (started w))
    as (c & t & tk & w1 & E & _).
  exists c, t, tk, w1. split; [exact E|].
  assert (Hloop : fetch_loop (pages ++ BadBody k :: rest) vid
                    (default EmptyString (api_key w)) [] None 0 (started w)
                  = (Raise (KeyError k), requested vid tk key w1)).
  { rewrite Hd.
    rewrite (fetch_loop_prefix pages (BadBody k :: rest) vid key Hp _ _ _ _ _ _ _ _ E).
    cbn [fetch_loop]. erewrite bind_raise; [reflexivity|].
    by apply iteration_failure. }
  rewrite (run_abort _ _ _ _ _ Ht Hloop). simpl.
  by rewrite <- app_assoc.
Qed.

Lemma run_bad_body_witness :
  ∃ c t tk w1,
    iterations [Page (snippets 50) (Some "t")] "dQw4w9WgXcQ" "k" [] None 0
      (started (world_of with_key ∅)) = (Ok (c, t, tk), w1)
    ∧ (_run ([Page (snippets 50) (Some "t")] ++ BadBody "items" :: [])
         "dQw4w9WgXcQ" (world_of with_key ∅)).1 = Ok []
    ∧ trace (_run ([Page (snippets 50) (Some "t")] ++ BadBody "items" :: [])
               "dQw4w9WgXcQ" (world_of with_key ∅)).2
      = trace w1 ++ [Get "dQw4w9WgXcQ" tk "k";
                     Log ERROR ("An unexpected error occurred: '" +:+ "items" +:+ "'")]
    ∧ fs (_run ([Page (snippets 50) (Some "t")] ++ BadBody "items" :: [])
            "dQw4w9WgXcQ" (world_of with_key ∅)).2 = fs w1.
Proof.
  apply (run_bad_body [Page (snippets 50) (Some "t")] [] "dQw4w9WgXcQ"
           (world_of with_key ∅) "k" "items").
  - reflexivity.
  - discriminate.
  - repeat constructor.
Defined.

(** The loop does not look at what follows the page without token. *)
Lemma fetch_loop_stops pages final rest vid key :
  Forall (λ r, has_next r = true) pages → is_final final = true →
  ∀ c tk total w,
    fetch_loop (pages ++ final :: rest) vid key c tk total w
    = fetch_loop (pages ++ [final]) vid key c tk total w.
Proof.
  intros Hp Hf c tk total w.
  destruct (iterations_pages pages vid key Hp c tk total w)
    as (c' & t' & tk' & w' & E & _).
  rewrite (fetch_loop_prefix pages (final :: rest) vid key Hp _ _ _ _ _ _ _ _ E).
  rewrite (fetch_loop_prefix pages [final] vid key Hp _ _ _ _ _ _ _ _ E).
  destruct final as [| | |items tok]; try discriminate. simpl in Hf.
  apply negb_true_iff in Hf.
  destruct (iteration_page items tok vid key c' tk' t' w') as (n & w2 & evs & E2 & _).
  cbn [fetch_loop]. erewrite !bind_ok by exact E2. cbn [fst snd].
  by rewrite Hf.
Qed.

(** X11: pagination stops at the first page without a continuation token
    (or with an empty one): whatever responses would follow it, the run is
    the same, and none of them is requested. *)
Theorem run_stops_at_final_page (pages : list response) (final : response)
    (rest : list response) (vid : string) (w : world) :
  Forall (λ r, has_next r = true) pages → is_final final = true →
  _run (pages ++ final :: rest) vid w = _run (pages ++ [final]) vid w.
Proof.
  intros Hp Hf. destruct (truthy (api_key w)) eqn:Hk.
  2:{ by rewrite !run_no_key. }
  pose proof (fetch_loop_stops pages final rest vid (default EmptyString (api_key w))
                Hp Hf [] None 0 (started w)) as Hs.
  destruct (fetch_loop (pages ++ [final]) vid (default EmptyString (api_key w))
              [] None 0 (started w)) as [[[c t]|e] w2] eqn:E.
  - destruct (save_comments_any c t vid w2) as (n & w3 & evs3 & E3 & _).
    rewrite (run_break _ _ _ _ _ _ _ _ Hk Hs E3).
    by rewrite (run_break _ _ _ _ _ _ _ _ Hk E E3).
  - rewrite (run_abort _ _ _ _ _ Hk Hs). by rewrite (run_abort _ _ _ _ _ Hk E).
Qed.

Lemma run_stops_at_final_page_witness :
  _run ([Page (snippets 2) (Some "t")] ++ Page (snippets 1) (Some EmptyString)
          :: [Page (snippets 5) None; HTTPError "500 Server Error"])
    "dQw4w9WgXcQ" (world_of with_key ∅)
  = _run ([Page (snippets 2) (Some "t")] ++ [Page (snippets 1) (Some EmptyString)])
      "dQw4w9WgXcQ" (world_of with_key ∅).
Proof.
  apply (run_stops_at_final_page [Page (snippets 2) (Some "t")]
           (Page (snippets 1) (Some EmptyString))
           [Page (snippets 5) None; HTTPError "500 Server Error"]
           "dQw4w9WgXcQ" (world_of with_key ∅)).
  - repeat constructor.
  - reflexivity.
Defined.

Lemma requests_app t1 t2 : requests (t1 ++ t2) = requests t1 ++ requests t2.
Proof. apply omap_app. Qed.

Lemma fetch_loop_requests pages final vid key :
  Forall (λ r, has_next r = true) pages → is_final final = true →
  ∀ c tk total w, ∃ evs,
    trace (fetch_loop (pages ++ [final]) vid key c tk total w).2 = trace w ++ evs
    ∧ requests evs = (λ t, (vid, t, key)) <$> (tk :: (page_token <$> pages)).
Proof.
  intros Hp Hf. induction Hp as [|r pages Hr Hp IH]; intros c tk total w.
  - destruct final as [| | |items tok]; try discriminate. simpl in Hf.
    apply negb_true_iff in Hf.
    destruct (iteration_page items tok vid key c tk total w)
      as (n & w' & evs & E & T & _ & G & _).
    exists (Get vid tk key :: evs). split.
    + simpl app. cbn [fetch_loop]. erewrite bind_ok by exact E. cbn [fst snd].
      by rewrite Hf.
    + simpl. by rewrite (requests_nil_of_gets _ G).
  - destruct r as [| | |items tok]; try discriminate. simpl in Hr.
    destruct (iteration_page items tok vid key c tk total w)
      as (n & w1 & evs1 & E & T & _ & G & _).
    destruct (IH (pending [items] c) tok n w1) as (evs2 & T2 & R2).
    exists ((Get vid tk key :: evs1) ++ evs2). split.
    + simpl app. cbn [fetch_loop]. erewrite bind_ok by exact E. cbn [fst snd].
      rewrite Hr, T2, T. by rewrite <- app_assoc.
    + rewrite requests_app, R2. simpl. by rewrite (requests_nil_of_gets _ G).
Qed.

(** Requests of a run with a key over a complete pagination. *)
Lemma run_requests_of pages final vid w key :
  environ w !! "YOUTUBE_API_KEY" = Some key → key ≠ EmptyString →
  Forall (λ r, has_next r = true) pages → is_final final = true →
  ∃ w' evs,
    _run (pages ++ [final]) vid w
    = (Ok (pending (page_items <$> pages ++ [final]) []), w')
    ∧ trace w' = trace w ++ evs
    ∧ requests evs = (λ t, (vid, t, key)) <$> (None :: (page_token <$> pages)).
Proof.
  intros Hk Hne Hp Hf.
  destruct (truthy_key w key Hk Hne) as [Ht Hd].
  destruct (fetch_loop_pagination pages final vid (default EmptyString (api_key w)) Hp Hf
              [] None 0 (started w)) as (t & w2 & evs2 & E2 & T2 & _).
  destruct (fetch_loop_requests pages final vid (default EmptyString (api_key w)) Hp Hf
              [] None 0 (started w)) as (evs2' & T2' & R2).
  rewrite E2 in T2'. simpl in T2'. rewrite T2 in T2'. apply app_inv_head in T2'.
  subst evs2'. rewrite Hd in R2.
  destruct (save_comments_any (pending (page_items <$> pages ++ [final]) []) t vid w2)
    as (n & w3 & evs3 & E3 & T3 & _ & G3 & _).
  eexists _, ([Log INFO ("Using API Key: " +:+ default EmptyString (api_key w));
               Log ERROR count_error]
              ++ evs2
              ++ (Flush (pending (page_items <$> pages ++ [final]) []) t :: evs3)
              ++ [Log INFO ("Total " +:+ pretty t +:+ " comments fetched.")]).
  split; [exact (run_break _ _ _ _ _ _ _ _ Ht E2 E3)|]. split.
  - simpl. rewrite T3, T2, started_trace, <- !app_assoc. reflexivity.
  - rewrite !requests_app, R2. simpl. rewrite (requests_nil_of_gets _ G3).
    by rewrite app_nil_r.
Qed.

(** X12: a run with a key over a complete pagination sends one request per
    page, in order; each carries the video identifier and the API key, the
    first no page token and every later one the token of the page before. *)
Theorem run_requests (pages : list response) (final : response)
    (vid : string) (w : world) (key : string) :
  environ w !! "YOUTUBE_API_KEY" = Some key → key ≠ EmptyString →
  Forall (λ r, has_next r = true) pages → is_final final = true →
  ∃ evs, trace (_run (pages ++ [final]) vid w).2 = trace w ++ evs
         ∧ requests evs = (λ t, (vid, t, key)) <$> (None :: (page_token <$> pages)).
Proof.
  intros Hk Hne Hp Hf.
  destruct (run_requests_of pages final vid w key Hk Hne Hp Hf) as (w' & evs & E & T & R).
  exists evs. by rewrite E.
Qed.

Lemma run_requests_witness :
  ∃ evs, trace (_run ([Page (snippets 2) (Some "t1"); Page (snippets 2) (Some "t2")]
                      ++ [Page (snippets 1) None])
                  "dQw4w9WgXcQ" (world_of with_key ∅)).2
         = trace (world_of with_key ∅) ++ evs
         ∧ requests evs
           = (λ t, ("dQw4w9WgXcQ", t, "k"))
               <$> (None :: (page_token <$> [Page (snippets 2) (Some "t1");
                                             Page (snippets 2) (Some "t2")])).
Proof.
  apply (run_requests [Page (snippets 2) (Some "t1"); Page (snippets 2) (Some "t2")]
           (Page (snippets 1) None) "dQw4w9WgXcQ" (world_of with_key ∅) "k").
  - reflexivity.
  - discriminate.
  - repeat constructor.
  - reflexivity.
Defined.

(** At the [break] the batch is empty or was too small to be flushed. *)
Lemma fetch_loop_result_small net vid key :
  ∀ c tk total w c' t w',
    fetch_loop net vid key c tk total w = (Ok (c', t), w') → length c' < 100.
Proof.
  induction net as [|r net IH]; intros c tk total w c' t w'.
  - intros H. discriminate H.
  - cbn [fetch_loop]. destruct r as [m|m|k|items tok].
    1-3: (erewrite bind_raise by (apply iteration_failure; reflexivity);
          intros H; discriminate H).
    destruct (100 <=? length (c ++ (to_comment <$> items)))%nat eqn:Hfull.
    + destruct (save_comments_any (c ++ (to_comment <$> items)) total vid
                  (requested vid tk key w)) as (n & w1 & evs1 & E1 & _).
      erewrite bind_ok by (eapply iteration_flush; eauto). cbn [fst snd].
      destruct (truthy tok); [apply IH|].
      intros [= <- <- <-]. simpl. lia.
    + erewrite bind_ok by (by apply iteration_keep). cbn [fst snd].
      apply Nat.leb_gt in Hfull.
      destruct (truthy tok); [apply IH|].
      by intros [= <- <- <-].
Qed.

Lemma run_result_small (net : list response) (vid : string) (w : world) :
  ∃ l w', _run net vid w = (Ok l, w') ∧ length l < 100.
Proof.
  destruct (truthy (api_key w)) eqn:Hk.
  2:{ rewrite run_no_key by done. eexists _, _. split; [reflexivity|]. simpl. lia. }
  destruct (fetch_loop net vid (default EmptyString (api_key w)) [] None 0 (started w))
    as [[[c t]|e] w2] eqn:E.
  - destruct (save_comments_any c t vid w2) as (n & w3 & evs3 & E3 & _).
    rewrite (run_break _ _ _ _ _ _ _ _ Hk E E3). eexists _, _. split; [reflexivity|].
    by eapply fetch_loop_result_small.
  - rewrite (run_abort _ _ _ _ _ Hk E). eexists _, _. split; [reflexivity|]. simpl. lia.
Qed.

(** X13: whatever the environment, the files and the responses are,
    [_run] returns a list, and the list has fewer than 100 records: it is
    never the full set of comments of a video that has 100 or more. *)
Theorem run_returns_fewer_than_100 (net : list response) (vid : string) (w : world) :
  ∃ l w', _run net vid w = (Ok l, w') ∧ length l < 100.
Proof. apply run_result_small. Qed.

(** ** The entry point *)

(** X14: when the line typed at the prompt has no [v=] or [/] immediately
    followed by eleven identifier characters, [run] prints that the URL is
    invalid and stops: no request is sent, nothing is logged, no file is
    touched. *)
Theorem run_invalid_url (dotenv : gmap string string) (typed : string)
    (net : list response) (w : world) :
  (¬ ∃ pre sep vid post,
       (sep = "v=" ∨ sep = "/") ∧ String.length vid = 11
       ∧ forallb id_char (list_ascii_of_string vid) = true
       ∧ typed = pre +:+ sep +:+ vid +:+ post) →
  ∃ w', run dotenv (Some typed) net w
        = ([Prompt "ðŸš€ Enter YouTube URL: ";
            PrintStr "ðŸš¨ Invalid YouTube URL provided."], Ok tt, w')
        ∧ trace w' = trace w ∧ fs w' = fs w.
Proof.
  intros H. apply extract_video_id_none_segment in H.
  exists (load_dotenv dotenv w). unfold run. rewrite H. done.
Qed.

Lemma run_invalid_url_witness :
  ∃ w', run ∅ (Some "https://www.youtube.com/") [Page (snippets 3) None]
          (world_of with_key ∅)
        = ([Prompt "ðŸš€ Enter YouTube URL: ";
            PrintStr "ðŸš¨ Invalid YouTube URL provided."], Ok tt, w')
        ∧ trace w' = trace (world_of with_key ∅) ∧ fs w' = fs (world_of with_key ∅).
Proof.
  apply (run_invalid_url ∅ "https://www.youtube.com/" [Page (snippets 3) None]
           (world_of with_key ∅)).
  apply extract_video_id_none_segment. vm_compute. reflexivity.
Defined.

(** X16: end to end. When the typed URL gives the identifier [vid] and the
    API key is [key], taken from the environment or, when the environment
    has none, from the [.env] file, then over a complete pagination [run]
    prints the list that [_run] returns, and every request carries [vid]
    and [key]. A key in the environment wins over the one in [.env]. *)
Theorem run_end_to_end (dotenv : gmap string string) (typed vid key : string)
    (pages : list response) (final : response) (w : world) :
  extract_video_id typed = Some vid →
  environ w !! "YOUTUBE_API_KEY" = Some key
  ∨ (environ w !! "YOUTUBE_API_KEY" = None ∧ dotenv !! "YOUTUBE_API_KEY" = Some key) →
  key ≠ EmptyString →
  Forall (λ r, has_next r = true) pages → is_final final = true →
  ∃ w' evs,
    run dotenv (Some typed) (pages ++ [final]) w
    = ([Prompt "ðŸš€ Enter YouTube URL: "; PrintStr "Analysis Result:";
        PrintList (pending (page_items <$> pages ++ [final]) [])], Ok tt, w')
    ∧ trace w' = trace w ++ evs
    ∧ requests evs = (λ t, (vid, t, key)) <$> (None :: (page_token <$> pages)).
Proof.
  intros Hv Hkey Hne Hp Hf.
  assert (Hk : environ (load_dotenv dotenv w) !! "YOUTUBE_API_KEY" = Some key).
  { simpl. destruct Hkey as [H | [H1 H2]].
    - by apply lookup_union_Some_l.
    - by rewrite lookup_union_r. }
  assert (Htruthy : truthy (Some vid) = true).
  { destruct (extract_video_id_some typed vid Hv) as (_ & s' & _ & Hc & _).
    destruct (candidate_some _ _ Hc) as (Hl & _).
    rewrite list_ascii_of_string_length in Hl. by destruct vid. }
  destruct (run_requests_of pages final vid (load_dotenv dotenv w) key Hk Hne Hp Hf)
    as (w' & evs & E & T & R).
  exists w', evs. unfold run. rewrite Hv, Htruthy. simpl default. rewrite E.
  done.
Qed.

Lemma run_end_to_end_witness :
  ∃ w' evs,
    run {["YOUTUBE_API_KEY" := "from-dotenv"]}
      (Some "https://www.youtube.com/watch?v=dQw4w9WgXcQ&t=5s")
      ([Page (snippets 2) (Some "t1")] ++ [Page (snippets 1) None])
      (world_of with_key ∅)
    = ([Prompt "ðŸš€ Enter YouTube URL: "; PrintStr "Analysis Result:";
        PrintList (pending (page_items <$> [Page (snippets 2) (Some "t1")]
                                           ++ [Page (snippets 1) None]) [])],
       Ok tt, w')
    ∧ trace w' = trace (world_of with_key ∅) ++ evs
    ∧ requests evs
      = (λ t, ("dQw4w9WgXcQ", t, "k"))
          <$> (None :: (page_token <$> [Page (snippets 2) (Some "t1")])).
Proof.
  apply (run_end_to_end {["YOUTUBE_API_KEY" := "from-dotenv"]}
           "https://www.youtube.com/watch?v=dQw4w9WgXcQ&t=5s" "dQw4w9WgXcQ" "k"
           [Page (snippets 2) (Some "t1")] (Page (snippets 1) None)
           (world_of with_key ∅)).
  - vm_compute. reflexivity.
  - left. reflexivity.
  - discriminate.
  - repeat constructor.
  - reflexivity.
Defined.
